(** * The cancellable HTTP client of the renderer (Http, useHttp, useApi)

    A shallow embedding of the [Http] class and of the [cancel] callback of
    [useApi].  The part of axios the class relies on (cancel tokens, and the
    settlement of a dispatched request) is kept as explicit state, and every
    effect the class performs is appended to a chronological log. *)

From Stdlib Require Import ZArith PrimFloat.
From stdpp Require Import gmap strings list fin_maps sorting.

Set Warnings "-register-all".
Open Scope Z_scope.

(** ** JavaScript values *)

Module Js.

(** A JS [number] is an IEEE 754 double. *)
Definition number : Type := PrimFloat.float.

(** Identity of an axios [CancelToken] object. *)
Abbreviation CancelToken := nat.

(** The values that travel through the client: parsed response bodies and
    the fields of a request configuration. *)
Inductive JsValue : Type :=
| JUndefined
| JNull
| JBool (b : bool)
| JNumber (n : number)
| JString (s : string)
| JArray (items : list JsValue)
| JObject (props : gmap string JsValue)
| JCancelToken (t : CancelToken).

(** The own properties of a plain object. *)
Abbreviation Props := (gmap string JsValue).

(** [typeof v] *)
Definition typeof (v : JsValue) : string :=
  match v with
  | JUndefined => "undefined"
  | JNull => "object"
  | JBool _ => "boolean"
  | JNumber _ => "number"
  | JString _ => "string"
  | JArray _ => "object"
  | JObject _ => "object"
  | JCancelToken _ => "object"
  end.

(** ToBoolean: [undefined], [null], [false], [0], [-0], [NaN] and the empty
    string are falsy, every other value is truthy. *)
Definition truthy (v : JsValue) : bool :=
  match v with
  | JUndefined | JNull => false
  | JBool b => b
  | JNumber n => negb (PrimFloat.eqb n 0%float || PrimFloat.is_nan n)
  | JString s => negb (String.eqb s "")
  | JArray _ | JObject _ | JCancelToken _ => true
  end.

(** [o.key] on the own properties of an object: [undefined] when absent. *)
Definition prop (o : Props) (key : string) : JsValue :=
  default JUndefined (o !! key).

(** [{ ...base, ...over }]: the properties of [over] win. *)
Definition spread (base over : Props) : Props := over ∪ base.

(** [v === n] for a number literal [n]: IEEE equality on numbers, [false] on
    every value of another type. *)
Definition strict_eq_number (v : JsValue) (n : number) : bool :=
  match v with
  | JNumber m => PrimFloat.eqb m n
  | _ => false
  end.

(** [x + 1] on a [number] holding a non-negative integer: exact below
    [2^53]; at [2^53] the sum [2^53 + 1] is not representable and rounds
    (ties to even) back to [2^53]. *)
Definition MAX_EXACT : Z := 2 ^ 53.

Definition succ (x : Z) : Z := if x <? MAX_EXACT then x + 1 else x.

End Js.
Export Js.

(** ** Thrown values *)

(** [class HttpError extends Error { constructor(message, public code?) }];
    an absent code is [undefined]. *)
Record HttpError : Type := mkHttpError {
  message : string;
  code : JsValue;
}.

(** axios [Cancel]: the reason of a cancelled token, carrying the optional
    message given to [cancel]. *)
Record Cancel : Type := mkCancel { cancel_message : option string }.

(** axios [AxiosResponse]: the fields the client reads. *)
Record AxiosResponse : Type := mkResponse {
  data : JsValue;
  status : Z;
  statusText : string;
}.

(** axios [AxiosError]: [response] is absent when no response was received. *)
Record AxiosError : Type := mkAxiosError {
  error_message : string;
  response : option AxiosResponse;
}.

(** What a promise can reject with.  [ThrownCancel] are the values
    [axios.isCancel] accepts, [ThrownAxiosError] those [axios.isAxiosError]
    accepts; [TypeErrorRead base key] is the TypeError of reading [base.key]
    on [null] or [undefined]; [ThrownOther v] is any other value [v], an
    object among them carrying neither mark. *)
Inductive Thrown : Type :=
| ThrownHttpError (e : HttpError)
| ThrownCancel (c : Cancel)
| ThrownAxiosError (e : AxiosError)
| TypeErrorRead (base : JsValue) (key : string)
| ThrownOther (v : JsValue).

Definition isCancel (err : Thrown) : bool :=
  match err with ThrownCancel _ => true | _ => false end.

(** Evaluation of an expression: a value, or an exception. *)
Inductive Completion (A : Type) : Type :=
| Normal (a : A)
| Throw (e : Thrown).
Arguments Normal {A} a.
Arguments Throw {A} e.

Definition cbind {A B} (c : Completion A) (k : A → Completion B) : Completion B :=
  match c with
  | Normal a => k a
  | Throw e => Throw e
  end.

(** [v.key]: throws on [null] and [undefined]; an own property of an object;
    [undefined] for the other values (the client reads [result] and [data]
    only, which no array, token or primitive wrapper defines). *)
Definition get_prop (v : JsValue) (key : string) : Completion JsValue :=
  match v with
  | JUndefined | JNull => Throw (TypeErrorRead v key)
  | JObject props => Normal (prop props key)
  | _ => Normal JUndefined
  end.

(** [function isResponseObject(obj)]:
    [typeof obj === "object" && typeof obj.result === "number"]. *)
Definition isResponseObject (obj : JsValue) : Completion bool :=
  if String.eqb (typeof obj) "object" then
    cbind (get_prop obj "result") (λ r,
    Normal (String.eqb (typeof r) "number"))
  else Normal false.

(** [axios.isAxiosError(payload)], as axios 0.21 has it:
    [typeof payload === "object" && payload.isAxiosError === true]; as a type
    guard it yields the payload as an [AxiosError].  Like [isResponseObject]
    it takes [null] for an object and reads a property of it, which throws.
    The objects that carry the mark are the [ThrownAxiosError] values; of a
    [ThrownOther] value, which stands for one without it ([axios_marked]
    below), the read keeps its exception only. *)
Definition isAxiosError (payload : Thrown) : Completion (option AxiosError) :=
  match payload with
  | ThrownAxiosError e => Normal (Some e)
  | ThrownOther v =>
      if String.eqb (typeof v) "object" then
        cbind (get_prop v "isAxiosError") (λ _, Normal None)
      else Normal None
  | _ => Normal None
  end.


(** ** State *)

(** axios [CancelTokenSource]: [{ token, cancel }], where [cancel] acts on
    [token]. *)
Record CancelTokenSource : Type := mkSource { token : CancelToken }.

(** [Map<number, CancelTokenSource>], in insertion order. *)
Definition RequestMap : Type := list (Z * CancelTokenSource).

Fixpoint Map_get (k : Z) (m : RequestMap) : option CancelTokenSource :=
  match m with
  | [] => None
  | (k', v) :: m' => if k =? k' then Some v else Map_get k m'
  end.

(** [m.set(k, v)]: replaces the value of an existing key in place, appends a
    new key. *)
Fixpoint Map_set (k : Z) (v : CancelTokenSource) (m : RequestMap) : RequestMap :=
  match m with
  | [] => [(k, v)]
  | (k', v') :: m' => if k =? k' then (k, v) :: m' else (k', v') :: Map_set k v m'
  end.

Fixpoint Map_delete (k : Z) (m : RequestMap) : RequestMap :=
  match m with
  | [] => []
  | (k', v') :: m' => if k =? k' then Map_delete k m' else (k', v') :: Map_delete k m'
  end.

(** [class Http { private currentId = 0; private requestMap = new Map() }] *)
Record Http : Type := mkHttp {
  currentId : Z;
  requestMap : RequestMap;
}.

Definition new_Http : Http := {| currentId := 0; requestMap := [] |}.

(** The promise returned by [request], by order of creation. *)
Abbreviation Promise := nat.

Inductive TransportOutcome : Type :=
| Fulfilled (resp : AxiosResponse)
| Rejected (err : Thrown).

Inductive Settlement : Type :=
| Resolved (v : JsValue)
| RejectedWith (e : Thrown).

(** A request handed to the transport: the identifier its handlers close
    over, the configuration it was dispatched with, and the settlement of
    the promise [request] returned ([None] while in flight). *)
Record Dispatched : Type := mkDispatched {
  d_requestID : Z;
  d_config : Props;
  d_settlement : option Settlement;
}.

Inductive Effect : Type :=
| MapSet (requestID : Z) (source : CancelTokenSource)
| MapDelete (requestID : Z)
| SourceCancel (source : CancelTokenSource) (message : option string)
| HttpRequest (p : Promise) (config : Props)
| Settle (p : Promise) (s : Settlement).

Record World : Type := mkWorld {
  client : Http;
  (** axios: number of [CancelToken]s created so far *)
  allocated : nat;
  (** axios: [token.reason] of the tokens that were cancelled *)
  reasons : gmap CancelToken Cancel;
  dispatched : list Dispatched;
  events : list Effect;
}.

Definition init : World :=
  {| client := new_Http; allocated := 0; reasons := ∅;
     dispatched := []; events := [] |}.

(** ** State monad *)

Definition M (A : Type) : Type := World → A * World.

Definition ret {A} (a : A) : M A := λ w, (a, w).

Definition bind {A B} (c : M A) (k : A → M B) : M B :=
  λ w, let (a, w') := c w in k a w'.

Declare Scope http_scope.
Delimit Scope http_scope with http.
Notation "x <- c ;; k" := (bind c (λ x, k))
  (at level 100, c at next level, k at level 200, right associativity) : http_scope.
Notation "c ;; k" := (bind c (λ _, k))
  (at level 100, k at level 200, right associativity) : http_scope.
Open Scope http_scope.

Definition emit (e : Effect) : M unit :=
  λ w, (tt, {| client := client w; allocated := allocated w; reasons := reasons w;
               dispatched := dispatched w; events := events w ++ [e] |}).

Definition modify_client (f : Http → Http) : M unit :=
  λ w, (tt, {| client := f (client w); allocated := allocated w; reasons := reasons w;
               dispatched := dispatched w; events := events w |}).

Definition get_client : M Http := λ w, (client w, w).

(** [this.requestMap.set(k, source)] *)
Definition requestMap_set (k : Z) (source : CancelTokenSource) : M unit :=
  modify_client (λ h, {| currentId := currentId h;
                         requestMap := Map_set k source (requestMap h) |}) ;;
  emit (MapSet k source).

(** [this.requestMap.delete(k)] *)
Definition requestMap_delete (k : Z) : M unit :=
  modify_client (λ h, {| currentId := currentId h;
                         requestMap := Map_delete k (requestMap h) |}) ;;
  emit (MapDelete k).

(** ** axios *)

(** [CancelToken.source()]: a source over a new token. *)
Definition CancelToken_source : M CancelTokenSource :=
  λ w, (mkSource (allocated w),
        {| client := client w; allocated := S (allocated w); reasons := reasons w;
           dispatched := dispatched w; events := events w |}).

(** [if (token.reason) return; token.reason = new Cancel(message)] *)
Definition set_reason (t : CancelToken) (msg : option string)
  (rs : gmap CancelToken Cancel) : gmap CancelToken Cancel :=
  match rs !! t with
  | Some _ => rs
  | None => <[t := mkCancel msg]> rs
  end.

(** [source.cancel(message)]: sets the token's reason unless it has one. *)
Definition source_cancel (source : CancelTokenSource) (msg : option string) : M unit :=
  emit (SourceCancel source msg) ;;
  λ w, (tt, {| client := client w; allocated := allocated w;
               reasons := set_reason (token source) msg (reasons w);
               dispatched := dispatched w; events := events w |}).

(** [http.request(config)] with the handlers of [Http.request] attached: the
    request is in flight, its promise is the next one. *)
Definition http_request (requestID : Z) (config : Props) : M Promise :=
  λ w, let p := length (dispatched w) in
       (p, {| client := client w; allocated := allocated w; reasons := reasons w;
              dispatched := dispatched w ++ [mkDispatched requestID config None];
              events := events w ++ [HttpRequest p config] |}).

(** The token a configuration carries. *)
Definition config_token (config : Props) : option CancelToken :=
  match prop config "cancelToken" with
  | JCancelToken t => Some t
  | _ => None
  end.

(** What the transport delivers: a request whose token has a reason is
    rejected with that reason, whatever the network answered. *)
Definition transport_outcome (w : World) (config : Props) (answer : TransportOutcome)
  : TransportOutcome :=
  match config_token config with
  | Some t =>
      match reasons w !! t with
      | Some c => Rejected (ThrownCancel c)
      | None => answer
      end
  | None => answer
  end.

(** ** The Http class *)

Definition Method : Type := string.

(** [this.requestMap.forEach(f)]: [f] on every source, in insertion order. *)
Fixpoint forEach (m : RequestMap) (f : CancelTokenSource → M unit) : M unit :=
  match m with
  | [] => ret tt
  | (_, source) :: m' => f source ;; forEach m' f
  end.

(** [public dispose(message?: string)] *)
Definition dispose (msg : option string) : M unit :=
  h <- get_client ;;
  forEach (requestMap h) (λ source, source_cancel source msg).

(** [this.currentId++] *)
Definition incr_currentId : M unit :=
  modify_client (λ h, {| currentId := Js.succ (currentId h);
                         requestMap := requestMap h |}).

(** The defaults of the dispatched configuration:
    [{ method: method, url: url, timeout: 1000 * 60 }]. *)
Definition defaults (method : Method) (url : string) : Props :=
  <["method" := JString method]>
    (<["url" := JString url]>
       (<["timeout" := JNumber (1000 * 60)%float]> ∅)).

(** [public request<T>(method, url, options): Promise<T>], up to the call of
    the transport, on an options object that takes the assignment to
    [options.cancelToken] ([request_call] below is the call on any object,
    with the exception the assignment can throw).  Returns the promise
    together with the caller's [options] object as the call leaves it: the
    assignment writes into that object. *)
Definition request (method : Method) (url : string) (options : Props)
  : M (Promise * Props) :=
  incr_currentId ;;
  h <- get_client ;;
  let requestID := currentId h in
  cancelToken <-
    (if truthy (prop options "cancelToken")
     then ret (prop options "cancelToken")
     else
       source <- CancelToken_source ;;
       requestMap_set requestID source ;;
       ret (JCancelToken (token source))) ;;
  let options := <["cancelToken" := cancelToken]> options in
  p <- http_request requestID (spread (defaults method url) options) ;;
  ret (p, options).

(** [public get<T>(url, options = {})] *)
Definition get (url : string) (options : option Props) : M (Promise * Props) :=
  request "GET" url (default ∅ options).

(** [public post<T>(url, options = {})] *)
Definition post (url : string) (options : option Props) : M (Promise * Props) :=
  request "POST" url (default ∅ options).

(** The body of the [.then] handler after the registry entry is removed; an
    exception thrown by the handler rejects the promise [.then] returns. *)
Definition on_response (resp : AxiosResponse) : Completion Settlement :=
  cbind (isResponseObject (data resp)) (λ enveloped,
  if enveloped then
    cbind (get_prop (data resp) "result") (λ result,
    if strict_eq_number result (-1)%float then
      cbind (get_prop (data resp) "data") (λ d, Normal (Resolved d))
    else
      Normal (RejectedWith (ThrownHttpError (mkHttpError "请求错误" result))))
  else Normal (Resolved (data resp))).

(** [.then((resp) => { this.requestMap.delete(requestID); ... })] *)
Definition onFulfilled (requestID : Z) (resp : AxiosResponse) : M Settlement :=
  requestMap_delete requestID ;;
  ret (match on_response resp with
       | Normal s => s
       | Throw e => RejectedWith e
       end).

(** [err.response?.statusText || err.message] *)
Definition statusText_or_message (err : AxiosError) : string :=
  match response err with
  | Some r => if truthy (JString (statusText r)) then statusText r
              else error_message err
  | None => error_message err
  end.

(** [.catch(err => { this.requestMap.delete(requestID); ... })]; an
    exception thrown by the handler rejects the promise [.catch] returns. *)
Definition onRejected (requestID : Z) (err : Thrown) : M Settlement :=
  requestMap_delete requestID ;;
  ret (if isCancel err then
         RejectedWith (ThrownHttpError (mkHttpError "请求被取消" JUndefined))
       else
         match isAxiosError err with
         | Normal (Some e) =>
             RejectedWith
               (ThrownHttpError (mkHttpError (statusText_or_message e) JUndefined))
         | Normal None => RejectedWith err
         | Throw thrown => RejectedWith thrown
         end).

(** [transport.then(onFulfilled).catch(onRejected)]: a rejection of the
    transport, or of the promise [.then] returns, reaches [onRejected]; a
    value [.then] resolves with passes through [.catch]. *)
Definition settle (requestID : Z) (o : TransportOutcome) : M Settlement :=
  match o with
  | Fulfilled resp =>
      s <- onFulfilled requestID resp ;;
      match s with
      | Resolved v => ret (Resolved v)
      | RejectedWith e => onRejected requestID e
      end
  | Rejected err => onRejected requestID err
  end.

(** The promise [p] is settled with [s]. *)
Definition resolve_promise (p : Promise) (d : Dispatched) (s : Settlement) : M unit :=
  λ w, (tt, {| client := client w; allocated := allocated w; reasons := reasons w;
               dispatched := <[p := mkDispatched (d_requestID d) (d_config d) (Some s)]>
                               (dispatched w);
               events := events w ++ [Settle p s] |}).

(** The transport answers the request behind promise [p]: the handlers run
    and the promise settles.  Nothing happens for a promise that does not
    exist or is already settled. *)
Definition deliver (p : Promise) (answer : TransportOutcome) : M unit :=
  λ w, match dispatched w !! p with
       | Some d =>
           match d_settlement d with
           | None =>
               (s <- settle (d_requestID d) (transport_outcome w (d_config d) answer) ;;
                resolve_promise p d s) w
           | Some _ => (tt, w)
           end
       | None => (tt, w)
       end.

(** ** useApi *)

(** [const cancel = useCallback(() => client.dispose.bind(client), [client])]:
    the callback takes no parameter and returns the bound method. *)
Definition cancel (_ : option string) : M (option string → M unit) :=
  ret dispose.

(** The cleanup of [useHttp] and [useApi]. *)
Definition cleanup : M unit := dispose (Some "组建销毁，中止请求").

(** ** Runs of one client *)

Inductive Action : Type :=
| CallRequest (method : Method) (url : string) (options : Props)
| CallDispose (msg : option string)
| CallCancel (msg : option string)
| Answer (p : Promise) (answer : TransportOutcome).

Definition step (w : World) (a : Action) : World :=
  match a with
  | CallRequest method url options => (request method url options w).2
  | CallDispose msg => (dispose msg w).2
  | CallCancel msg => (cancel msg w).2
  | Answer p answer => (deliver p answer w).2
  end.

Definition run (w : World) (l : list Action) : World := foldl step w l.

(** The identifiers assigned so far, in call order. *)
Definition assigned (w : World) : list Z := d_requestID <$> dispatched w.

(** The settlement of promise [p], if it settled. *)
Definition settlement (w : World) (p : Promise) : option Settlement :=
  d ← dispatched w !! p; d_settlement d.


(** The rejection of a cancelled request. *)
Definition cancelled : Settlement :=
  RejectedWith (ThrownHttpError (mkHttpError "请求被取消" JUndefined)).

(** The number of [request] calls of a run. *)
Definition is_request (a : Action) : bool :=
  match a with CallRequest _ _ _ => true | _ => false end.

Fixpoint request_calls (l : list Action) : nat :=
  match l with
  | [] => 0%nat
  | a :: l' => ((if is_request a then 1 else 0) + request_calls l')%nat
  end.

(** The identifier of the [n]-th call of [request] on a client: the counter
    starts at 0 and stops growing at [2^53]. *)
Definition nth_id (n : nat) : Z := Z.min (Z.of_nat n) MAX_EXACT.

(** What a run with [n] calls of [request] has assigned. *)
Definition ids_inv (w : World) (n : nat) : Prop :=
  currentId (client w) = nth_id n ∧ assigned w = nth_id <$> seq 1 n.

(** No completed request has its identifier in the registry. *)
Definition settled_absent (w : World) : Prop :=
  ∀ (p : Promise) (d : Dispatched) (s : Settlement),
    dispatched w !! p = Some d → d_settlement d = Some s →
    Map_get (d_requestID d) (requestMap (client w)) = None.

(** One call more than the counter can count. *)
Definition beyond_exact : nat := Z.to_nat (MAX_EXACT + 1).

(** The reasons after [source.cancel(msg)] on every source of [m]. *)
Definition cancel_all (msg : option string) (m : RequestMap)
  (rs : gmap CancelToken Cancel) : gmap CancelToken Cancel :=
  foldl (λ acc (e : Z * CancelTokenSource), set_reason (token e.2) msg acc) rs m.

(** The world [n] calls of [requestMap.delete(requestID)] leave. *)
Definition after_delete (requestID : Z) (w : World) (n : nat) : World :=
  {| client := {| currentId := currentId (client w);
                  requestMap := Map_delete requestID (requestMap (client w)) |};
     allocated := allocated w; reasons := reasons w; dispatched := dispatched w;
     events := events w ++ replicate n (MapDelete requestID) |}.

(** ** Sample inputs *)

(** The body [{ result: -1, data: "X" }]. *)
Definition body_ok : Props :=
  <["result" := JNumber (-1)%float]> (<["data" := JString "X"]> ∅).

(** The body [{ result: 7, data: null }]. *)
Definition body_failed : Props :=
  <["result" := JNumber 7%float]> (<["data" := JNull]> ∅).

(** Three requests, interleaved with a [dispose] and an answer. *)
Definition three_calls : list Action :=
  [CallRequest "GET" "/a" ∅; CallDispose None;
   CallRequest "POST" "/b" ∅;
   Answer 0%nat (Fulfilled (mkResponse (JString "raw") 200 "OK"));
   CallRequest "GET" "/c" ∅].

(** Two requests in flight, made without a token. *)
Definition two_in_flight : World :=
  run init [CallRequest "GET" "/a" ∅; CallRequest "POST" "/b" ∅].

(** The configuration dispatched for empty options once token [t] is set. *)
Definition config_of (method : Method) (url : string) (t : CancelToken) : Props :=
  spread (defaults method url) (<["cancelToken" := JCancelToken t]> ∅).

(** ** Options objects that refuse the assignment *)

(** How far an object was closed: by [Object.preventExtensions] or
    [Object.seal] it takes no new property, by [Object.freeze] it takes no
    new property and no new value for one it has. *)
Inductive Integrity : Type :=
| Extensible
| NonExtensible
| Frozen.

(** An options object: its own properties and how far it is closed. *)
Record OptionsObject : Type := mkOptionsObject {
  own : Props;
  integrity : Integrity;
}.

(** Whether [o.key = v] succeeds; in strict code, as that of a module, the
    assignment throws a TypeError when it does not. *)
Definition can_set (o : OptionsObject) (key : string) : bool :=
  match integrity o with
  | Extensible => true
  | NonExtensible => bool_decide (is_Some (own o !! key))
  | Frozen => false
  end.

(** How a call ends: it returns, or it throws the TypeError of an assignment
    to the property [key] that the object refused. *)
Inductive Returned (A : Type) : Type :=
| Returns (a : A)
| ThrowsTypeError (key : string).
Arguments Returns {A} a.
Arguments ThrowsTypeError {A} key.

(** [public request<T>(method, url, options): Promise<T>] on any options
    object.  The right-hand side of [options.cancelToken = ...] is evaluated
    first, so a source is created and registered before the assignment; when
    the object refuses it, the call throws there and the transport is never
    called. *)
Definition request_call (method : Method) (url : string) (options : OptionsObject)
  : M (Returned (Promise * OptionsObject)) :=
  incr_currentId ;;
  h <- get_client ;;
  let requestID := currentId h in
  cancelToken <-
    (if truthy (prop (own options) "cancelToken")
     then ret (prop (own options) "cancelToken")
     else
       source <- CancelToken_source ;;
       requestMap_set requestID source ;;
       ret (JCancelToken (token source))) ;;
  if can_set options "cancelToken" then
    let options' := <["cancelToken" := cancelToken]> (own options) in
    p <- http_request requestID (spread (defaults method url) options') ;;
    ret (Returns (p, mkOptionsObject options' (integrity options)))
  else ret (ThrowsTypeError "cancelToken").

(** What happens to a client: the actions of [Action], where [request] is
    called on an object that takes the assignment, or a call of [request] on
    any options object. *)
Inductive Event : Type :=
| Do (a : Action)
| CallRequestOn (method : Method) (url : string) (options : OptionsObject).

Definition step_on (w : World) (e : Event) : World :=
  match e with
  | Do a => step w a
  | CallRequestOn method url options => (request_call method url options w).2
  end.

Definition run_on (w : World) (l : list Event) : World := foldl step_on w l.

(** The event is no call of [request] that throws after it registered a
    source: the object takes the assignment, or holds a token already. *)
Definition no_orphan (e : Event) : Prop :=
  match e with
  | Do _ => True
  | CallRequestOn _ _ options =>
      can_set options "cancelToken" = true ∨
      truthy (prop (own options) "cancelToken") = true
  end.

(** A frozen [{}]. *)
Definition frozen_options : OptionsObject := mkOptionsObject ∅ Frozen.

(** ** Registry invariants *)

(** Every entry of the registry belongs to a request in flight that was
    dispatched with the entry's token. *)
Definition registry_in_flight (w : World) : Prop :=
  ∀ (k : Z) (source : CancelTokenSource),
    (k, source) ∈ requestMap (client w) →
    ∃ (p : Promise) (d : Dispatched),
      dispatched w !! p = Some d ∧ d_requestID d = k ∧ d_settlement d = None ∧
      config_token (d_config d) = Some (token source).

(** The registry holds [t]: some entry's source is over token [t]. *)
Definition registry_holds (w : World) (t : CancelToken) : Prop :=
  ∃ k : Z, (k, mkSource t) ∈ requestMap (client w).

(** Promise [p] is a request with identifier [k] and token [t] which, while
    in flight, is registered under [k] with a source over [t]. *)
Definition tracked (w : World) (p : Promise) (k : Z) (t : CancelToken) : Prop :=
  ∃ d : Dispatched,
    dispatched w !! p = Some d ∧ d_requestID d = k ∧
    config_token (d_config d) = Some t ∧
    (d_settlement d = None → Map_get k (requestMap (client w)) = Some (mkSource t)).

(** ** React state hooks *)

(** The argument of a state setter: the new state, or a function of the
    previous one. *)
Inductive SetStateAction (S : Type) : Type :=
| NewState (v : S)
| Updater (f : S → S).
Arguments NewState {S} v.
Arguments Updater {S} f.

(** React's [basicStateReducer]:
    [typeof action === 'function' ? action(state) : action]. *)
Definition basicStateReducer {S : Type} (state : S) (action : SetStateAction S) : S :=
  match action with
  | NewState v => v
  | Updater f => f state
  end.

(** A [useState] cell: the state the last render returned, and the actions
    its setter was called with since. *)
Record StateHook (S : Type) : Type := mkStateHook {
  memoizedState : S;
  queue : list (SetStateAction S);
}.
Arguments mkStateHook {S} memoizedState queue.
Arguments memoizedState {S} s.
Arguments queue {S} s.

(** [useState(initialState)] on the first render. *)
Definition mountState {S : Type} (initialState : S) : StateHook S :=
  mkStateHook initialState [].

(** The setter: the action is queued for the next render. *)
Definition dispatchSetState {S : Type} (action : SetStateAction S) (h : StateHook S)
  : StateHook S :=
  mkStateHook (memoizedState h) (queue h ++ [action]).

(** [useState] on a later render: the queued actions are applied in order. *)
Definition updateState {S : Type} (h : StateHook S) : StateHook S :=
  mkStateHook (foldl basicStateReducer (memoizedState h) (queue h)) [].

(** ** useToggle *)

(** [useToggle(defaultValue = false)], first render. *)
Definition useToggle_mount (defaultValue : option bool) : StateHook bool :=
  mountState (default false defaultValue).

(** [const toggle = useCallback(() => setValue(state => !state), [])] *)
Definition toggle (h : StateHook bool) : StateHook bool :=
  dispatchSetState (Updater negb) h.

(** A later render of [useToggle]: the [value] it returns, and the cell. *)
Definition useToggle (h : StateHook bool) : bool * StateHook bool :=
  let h' := updateState h in (memoizedState h', h').

Inductive ToggleEvent : Type :=
| CallToggle
| Rerender.

Definition toggle_step (h : StateHook bool) (e : ToggleEvent) : StateHook bool :=
  match e with
  | CallToggle => toggle h
  | Rerender => (useToggle h).2
  end.

Fixpoint toggle_calls (l : list ToggleEvent) : nat :=
  match l with
  | [] => 0%nat
  | CallToggle :: l' => S (toggle_calls l')
  | Rerender :: l' => toggle_calls l'
  end.

(** ** useLocalStorage *)

(** [localStorage]: string items by key. *)
Abbreviation Storage := (gmap string string).

(** [a || b] for [a : string | null]: [b] when [a] is [null] or empty. *)
Definition or_else (a : option string) (b : string) : string :=
  match a with
  | Some s => if String.eqb s "" then b else s
  | None => b
  end.

Record LocalStorageHook : Type := mkLocalStorageHook {
  ls_state : StateHook string;
  localStorage : Storage;
}.

(** [useLocalStorage(key, defaultValue)], first render:
    [useState(localStorage.getItem(key) || defaultValue)]. *)
Definition useLocalStorage_mount (key defaultValue : string) (storage : Storage)
  : LocalStorageHook :=
  {| ls_state := mountState (or_else (storage !! key) defaultValue);
     localStorage := storage |}.

(** A later render: the [value] it returns is [memoizedState] of the cell. *)
Definition useLocalStorage (h : LocalStorageHook) : LocalStorageHook :=
  {| ls_state := updateState (ls_state h); localStorage := localStorage h |}.

(** [function setItem(newVal)] of the render with this [key]; [value] is the
    state that render returned. *)
Definition setItem (key : string) (newVal : SetStateAction string)
    (h : LocalStorageHook) : LocalStorageHook :=
  let value := memoizedState (ls_state h) in
  {| ls_state := dispatchSetState newVal (ls_state h);
     localStorage :=
       match newVal with
       | Updater f => <[key := f value]> (localStorage h)
       | NewState s => <[key := s]> (localStorage h)
       end |}.

(** [StorageEvent]: [key] is [null] when the storage was cleared, [newValue]
    is [null] when the item was removed. *)
Record StorageEvent : Type := mkStorageEvent {
  event_key : option string;
  newValue : option string;
}.

(** [function onStorageChange(event)] of the render with this [key]. *)
Definition onStorageChange (key : string) (event : StorageEvent)
    (h : LocalStorageHook) : LocalStorageHook :=
  if decide (event_key event = Some key) then
    {| ls_state := dispatchSetState (NewState (or_else (newValue event) ""))
                     (ls_state h);
       localStorage := localStorage h |}
  else h.

(** ** useApi *)

(** Identity of the options object a render of [useApi] works with: an
    object the caller passes, or the [{}] the default parameter creates in
    the render of the given number. *)
Inductive OptionsRef : Type :=
| CallerObject (n : nat)
| DefaultObject (render : nat).

#[global] Instance OptionsRef_eq_dec : EqDecision OptionsRef.
Proof. solve_decision. Defined.

(** The function [useCallback] holds: identified by the render that created
    it, it closes over that render's [method], [url] and [options]. *)
Record Callback : Type := mkCallback {
  cb_id : nat;
  cb_method : Method;
  cb_url : string;
  cb_options : OptionsRef;
}.

(** The arguments of a render: [useApi(method, url, options = {},
    immediately = false)]; [arg_options] names the caller's object. *)
Record ApiArgs : Type := mkApiArgs {
  arg_method : Method;
  arg_url : string;
  arg_options : option nat;
  arg_immediately : option bool;
}.

(** A component instance using [useApi]: the client of [useMemo] with the
    transport, the options objects, the three state cells (as the pending
    updates leave them: the setters are called with values only), and what
    [useCallback] and [useEffect] remember from the last render. *)
Record Api : Type := mkApi {
  api_world : World;
  caller_objects : gmap nat Props;
  default_objects : gmap nat Props;
  loading : bool;
  api_data : JsValue;
  api_err : option Thrown;
  renders : nat;
  memoizedCallback : option Callback;
  effect_deps : option (bool * nat);
  unmounted : bool;
}.

(** Before the first render; [new Http()] is the client of [init]. *)
Definition api_initial (objects : gmap nat Props) : Api :=
  {| api_world := init; caller_objects := objects; default_objects := ∅;
     loading := false; api_data := JNull; api_err := None;
     renders := 0; memoizedCallback := None; effect_deps := None;
     unmounted := false |}.

Definition heap_get (r : OptionsRef) (a : Api) : Props :=
  default ∅ match r with
            | CallerObject n => caller_objects a !! n
            | DefaultObject k => default_objects a !! k
            end.

Definition heap_set (r : OptionsRef) (o : Props) (a : Api) : Api :=
  {| api_world := api_world a;
     caller_objects := match r with
                       | CallerObject n => <[n := o]> (caller_objects a)
                       | DefaultObject _ => caller_objects a
                       end;
     default_objects := match r with
                        | CallerObject _ => default_objects a
                        | DefaultObject k => <[k := o]> (default_objects a)
                        end;
     loading := loading a; api_data := api_data a; api_err := api_err a;
     renders := renders a; memoizedCallback := memoizedCallback a;
     effect_deps := effect_deps a; unmounted := unmounted a |}.

Definition set_world (w : World) (a : Api) : Api :=
  {| api_world := w;
     caller_objects := caller_objects a; default_objects := default_objects a;
     loading := loading a; api_data := api_data a; api_err := api_err a;
     renders := renders a; memoizedCallback := memoizedCallback a;
     effect_deps := effect_deps a; unmounted := unmounted a |}.

(** [setLoading(l); setData(d); setError(e)] *)
Definition set_result (l : bool) (d : JsValue) (e : option Thrown) (a : Api) : Api :=
  {| api_world := api_world a;
     caller_objects := caller_objects a; default_objects := default_objects a;
     loading := l; api_data := d; api_err := e;
     renders := renders a; memoizedCallback := memoizedCallback a;
     effect_deps := effect_deps a; unmounted := unmounted a |}.

(** [setLoading(true)] *)
Definition set_loading (l : bool) (a : Api) : Api :=
  set_result l (api_data a) (api_err a) a.

(** [memoizedRequestCallback()], up to the dispatch:
    [setLoading(true); return client.request(method, url, options)...]. *)
Definition invoke (cb : Callback) (a : Api) : Api :=
  let a := set_loading true a in
  let r := request (cb_method cb) (cb_url cb) (heap_get (cb_options cb) a)
             (api_world a) in
  heap_set (cb_options cb) r.1.2 (set_world r.2 a).

(** The handlers [memoizedRequestCallback] attaches to the promise of
    [request]. *)
Definition on_settled (s : Settlement) (a : Api) : Api :=
  match s with
  | Resolved resp => set_result false resp None a
  | RejectedWith err => set_result false JNull (Some err) a
  end.

(** The transport answers promise [p]; when this settles the promise, the
    handlers of the callback run. *)
Definition api_answer (p : Promise) (answer : TransportOutcome) (a : Api) : Api :=
  let w' := (deliver p answer (api_world a)).2 in
  match settlement (api_world a) p, settlement w' p with
  | None, Some s => on_settled s (set_world w' a)
  | _, _ => set_world w' a
  end.

(** The cleanup of the effect: [client.dispose("组建销毁，中止请求")]. *)
Definition api_cleanup (a : Api) : Api :=
  set_world (cleanup (api_world a)).2 a.

(** A render of [useApi] with its effect.  [useCallback] keeps the function
    of the last render when [method], [url] and [options] are the same
    ([options] by identity); [useEffect] runs when [immediately] or the
    function changed, after the cleanup of the effect before. *)
Definition useApi (args : ApiArgs) (a : Api) : Api :=
  if unmounted a then a else
  let n := renders a in
  let immediately := default false (arg_immediately args) in
  let options :=
    match arg_options args with
    | Some r => CallerObject r
    | None => DefaultObject n
    end in
  let fresh := mkCallback n (arg_method args) (arg_url args) options in
  let cb :=
    match memoizedCallback a with
    | Some cb =>
        if decide (cb_method cb = arg_method args ∧ cb_url cb = arg_url args ∧
                   cb_options cb = options)
        then cb else fresh
    | None => fresh
    end in
  let a1 :=
    {| api_world := api_world a;
       caller_objects := caller_objects a;
       default_objects :=
         match arg_options args with
         | Some _ => default_objects a
         | None => <[n := ∅]> (default_objects a)
         end;
       loading := loading a; api_data := api_data a; api_err := api_err a;
       renders := S n; memoizedCallback := Some cb;
       effect_deps := Some (immediately, cb_id cb);
       unmounted := false |} in
  let effect (a : Api) := if immediately then invoke cb a else a in
  match effect_deps a with
  | Some deps =>
      if decide (deps = (immediately, cb_id cb)) then a1
      else effect (api_cleanup a1)
  | None => effect a1
  end.

(** The component unmounts: the cleanup of the last effect runs. *)
Definition api_unmount (a : Api) : Api :=
  let a := match effect_deps a with Some _ => api_cleanup a | None => a end in
  {| api_world := api_world a;
     caller_objects := caller_objects a; default_objects := default_objects a;
     loading := loading a; api_data := api_data a; api_err := api_err a;
     renders := renders a; memoizedCallback := memoizedCallback a;
     effect_deps := None; unmounted := true |}.

Inductive ApiEvent : Type :=
| ApiRender (args : ApiArgs)
| ApiInvoke
| ApiAnswer (p : Promise) (answer : TransportOutcome)
| ApiUnmount.

Definition api_step (a : Api) (e : ApiEvent) : Api :=
  match e with
  | ApiRender args => useApi args a
  | ApiInvoke =>
      match memoizedCallback a with
      | Some cb => invoke cb a
      | None => a
      end
  | ApiAnswer p answer => api_answer p answer a
  | ApiUnmount => api_unmount a
  end.

Definition api_run (a : Api) (l : list ApiEvent) : Api := foldl api_step a l.

(** What [useCallback] and [useEffect] remember is of an earlier render. *)
Definition api_wf (a : Api) : Prop :=
  (∀ cb, memoizedCallback a = Some cb →
     (cb_id cb < renders a)%nat ∧
     ∀ k, cb_options cb = DefaultObject k → (k < renders a)%nat) ∧
  (∀ deps, effect_deps a = Some deps →
     unmounted a = false ∧
     ∃ cb, memoizedCallback a = Some cb ∧ cb_id cb = deps.2).

(** ** More sample inputs *)

(** Options holding a token of the caller. *)
Definition own_token_options : Props := <["cancelToken" := JCancelToken 7]> ∅.

(** A request made without a token, then one with a token of the caller. *)
Definition one_registered_one_own : World :=
  run init [CallRequest "GET" "/a" ∅; CallRequest "GET" "/b" own_token_options].

(** [useApi("GET", "/a")]: no options, not immediate. *)
Definition plain_args : ApiArgs := mkApiArgs "GET" "/a" None None.

(** [useApi("GET", "/a", o)] with an object [o] of the caller. *)
Definition caller_args : ApiArgs := mkApiArgs "GET" "/a" (Some 0%nat) None.

(** A component that called its callback twice in one render. *)
Definition two_calls : Api :=
  api_run (api_initial ∅) [ApiRender plain_args; ApiInvoke; ApiInvoke].

(** [useApi("GET", "/a", o, true)] with an object [o] of the caller. *)
Definition immediate_args : ApiArgs := mkApiArgs "GET" "/a" (Some 0%nat) (Some true).

(** ** The storage listener of useLocalStorage *)

(** The function [onStorageChange] of a render: identified by the render
    that created it, it closes over that render's [key]. *)
Record Listener : Type := mkListener {
  listener_render : nat;
  listener_key : string;
}.

#[global] Instance Listener_eq_dec : EqDecision Listener.
Proof. solve_decision. Defined.

(** [window.addEventListener("storage", f)]: a listener already present is
    not added again. *)
Definition addEventListener (f : Listener) (ls : list Listener) : list Listener :=
  if decide (f ∈ ls) then ls else ls ++ [f].

(** [window.removeEventListener("storage", f)] *)
Definition removeEventListener (f : Listener) (ls : list Listener) : list Listener :=
  filter (λ g, g ≠ f) ls.

(** A component using [useLocalStorage]: the hook, the key of the last
    render, the number of renders, the storage listeners it has on the
    window, and the listener the cleanup of the last effect removes (none
    once unmounted). *)
Record StorageComponent : Type := mkStorageComponent {
  sc_hook : LocalStorageHook;
  sc_key : string;
  sc_renders : nat;
  sc_listeners : list Listener;
  sc_cleanup : option Listener;
}.

(** The effect of a render (it has no dependency list, so it runs after
    every render): the cleanup of the effect before, then
    [window.addEventListener("storage", onStorageChange)]. *)
Definition storage_effect (f : Listener) (c : StorageComponent) : StorageComponent :=
  let ls := match sc_cleanup c with
            | Some g => removeEventListener g (sc_listeners c)
            | None => sc_listeners c
            end in
  {| sc_hook := sc_hook c; sc_key := sc_key c; sc_renders := sc_renders c;
     sc_listeners := addEventListener f ls; sc_cleanup := Some f |}.

(** The first render with its effect. *)
Definition sc_mount (key defaultValue : string) (storage : Storage) : StorageComponent :=
  storage_effect (mkListener 0 key)
    {| sc_hook := useLocalStorage_mount key defaultValue storage; sc_key := key;
       sc_renders := 1; sc_listeners := []; sc_cleanup := None |}.

(** A later render with its effect. *)
Definition sc_render (key : string) (c : StorageComponent) : StorageComponent :=
  match sc_cleanup c with
  | None => c
  | Some _ =>
      storage_effect (mkListener (sc_renders c) key)
        {| sc_hook := useLocalStorage (sc_hook c); sc_key := key;
           sc_renders := S (sc_renders c); sc_listeners := sc_listeners c;
           sc_cleanup := sc_cleanup c |}
  end.

(** The window dispatches a storage event: every listener is called. *)
Definition sc_dispatch (event : StorageEvent) (c : StorageComponent) : StorageComponent :=
  {| sc_hook := foldl (λ h f, onStorageChange (listener_key f) event h)
                  (sc_hook c) (sc_listeners c);
     sc_key := sc_key c; sc_renders := sc_renders c;
     sc_listeners := sc_listeners c; sc_cleanup := sc_cleanup c |}.

(** The component unmounts: the cleanup of the last effect runs. *)
Definition sc_unmount (c : StorageComponent) : StorageComponent :=
  {| sc_hook := sc_hook c; sc_key := sc_key c; sc_renders := sc_renders c;
     sc_listeners := match sc_cleanup c with
                     | Some g => removeEventListener g (sc_listeners c)
                     | None => sc_listeners c
                     end;
     sc_cleanup := None |}.

Inductive StorageAction : Type :=
| ScRender (key : string)
| ScSetItem (newVal : SetStateAction string)
| ScStorage (event : StorageEvent)
| ScUnmount.

Definition sc_step (c : StorageComponent) (e : StorageAction) : StorageComponent :=
  match e with
  | ScRender key => sc_render key c
  | ScSetItem newVal =>
      {| sc_hook := setItem (sc_key c) newVal (sc_hook c); sc_key := sc_key c;
         sc_renders := sc_renders c; sc_listeners := sc_listeners c;
         sc_cleanup := sc_cleanup c |}
  | ScStorage event => sc_dispatch event c
  | ScUnmount => sc_unmount c
  end.

(** While mounted, the window holds the listener of the last render and no
    other; after the unmount it holds none. *)
Definition one_listener (c : StorageComponent) : Prop :=
  match sc_cleanup c with
  | Some f => sc_listeners c = [f] ∧ listener_key f = sc_key c ∧
              (listener_render f < sc_renders c)%nat
  | None => sc_listeners c = []
  end.

(** * Properties *)

(** ** The registry *)

Section Registry.
Implicit Types (k : Z) (v : CancelTokenSource) (m : RequestMap).

Lemma Map_get_delete_eq k m : Map_get k (Map_delete k m) = None.
Proof.
  induction m as [|[k' v'] m IH]; simpl; [done|].
  destruct (k =? k') eqn:E; simpl; [done|]. by rewrite E.
Qed.

Lemma Map_get_delete_ne k k' m : k ≠ k' → Map_get k (Map_delete k' m) = Map_get k m.
Proof.
  intros Hne. induction m as [|[k1 v1] m IH]; simpl; [done|].
  destruct (k' =? k1) eqn:E; simpl.
  - apply Z.eqb_eq in E. subst k1.
    by rewrite (proj2 (Z.eqb_neq k k') Hne).
  - by rewrite IH.
Qed.

Lemma Map_delete_idemp k m : Map_delete k (Map_delete k m) = Map_delete k m.
Proof.
  induction m as [|[k' v'] m IH]; simpl; [done|].
  destruct (k =? k') eqn:E; simpl; [done|]. by rewrite E, IH.
Qed.

Lemma Map_get_set_eq k v m : Map_get k (Map_set k v m) = Some v.
Proof.
  induction m as [|[k' v'] m IH]; simpl.
  - by rewrite Z.eqb_refl.
  - destruct (k =? k') eqn:E; simpl; [by rewrite Z.eqb_refl | by rewrite E].
Qed.

Lemma Map_get_set_ne k k' v m : k ≠ k' → Map_get k (Map_set k' v m) = Map_get k m.
Proof.
  intros Hne. apply Z.eqb_neq in Hne.
  induction m as [|[k1 v1] m IH]; simpl.
  - by rewrite Hne.
  - destruct (k' =? k1) eqn:E; simpl.
    + apply Z.eqb_eq in E. subst k1. by rewrite Hne.
    + by rewrite IH.
Qed.

End Registry.

(** ** The handlers *)

Section Handlers.
Variables (requestID : Z) (w : World).

Local Abbreviation after_delete := (after_delete requestID w).

Lemma onRejected_world (err : Thrown) :
  (onRejected requestID err w).2 = after_delete 1.
Proof. reflexivity. Qed.


Lemma settle_fulfilled (resp : AxiosResponse) :
  settle requestID (Fulfilled resp) w =
    match on_response resp with
    | Normal (Resolved v) => (Resolved v, after_delete 1)
    | Normal (RejectedWith e) | Throw e =>
        ((onRejected requestID e w).1, after_delete 2)
    end.
Proof.
  unfold settle, onFulfilled, bind, ret. cbn.
  destruct (on_response resp) as [[v|e]|e]; cbn; try reflexivity.
  all: unfold after_delete; cbn; rewrite Map_delete_idemp, <- app_assoc; reflexivity.
Qed.

Lemma settle_rejected (err : Thrown) :
  settle requestID (Rejected err) w =
    ((onRejected requestID err w).1, after_delete 1).
Proof. reflexivity. Qed.

(** Every path of the promise chain removes the entry, once or twice, and
    touches nothing else. *)
Lemma settle_world (o : TransportOutcome) :
  ∃ n, (settle requestID o w).2 = after_delete (S n).
Proof.
  destruct o as [resp|err].
  - rewrite settle_fulfilled.
    destruct (on_response resp) as [[v|e]|e]; eauto.
  - rewrite settle_rejected. eauto.
Qed.

Lemma isResponseObject_object (props : Props) :
  isResponseObject (JObject props) =
    Normal (String.eqb (typeof (prop props "result")) "number").
Proof. reflexivity. Qed.

End Handlers.

(** ** Transport success *)

Section Success.
Variables (requestID : Z) (w : World).

(** C1: when the transport succeeds with a body that is an object whose
    [result] is a number, the promise resolves with the body's [data] if
    [result === -1], and otherwise rejects with an [HttpError] whose code is
    that [result] and whose message is the fixed text. *)
Theorem envelope_settlement (resp : AxiosResponse) (props : Props) (r : number) :
  data resp = JObject props →
  props !! "result" = Some (JNumber r) →
  isResponseObject (data resp) = Normal true ∧
  (settle requestID (Fulfilled resp) w).1 =
    if PrimFloat.eqb r (-1)%float
    then Resolved (prop props "data")
    else RejectedWith (ThrownHttpError (mkHttpError "请求错误" (JNumber r))).
Proof.
  intros Hd Hr.
  assert (Hp : prop props "result" = JNumber r) by (unfold prop; by rewrite Hr).
  split.
  - by rewrite Hd, isResponseObject_object, Hp.
  - rewrite settle_fulfilled. unfold on_response.
    rewrite Hd, isResponseObject_object, Hp. cbn. rewrite Hp. cbn.
    destruct (PrimFloat.eqb r (-1)%float); reflexivity.
Qed.

(** A body that is not [null] and fails the shape test resolves the promise
    unchanged. *)
Lemma raw_body_resolves (resp : AxiosResponse) :
  isResponseObject (data resp) = Normal false →
  settle requestID (Fulfilled resp) w = (Resolved (data resp), after_delete requestID w 1).
Proof.
  intros H. rewrite settle_fulfilled. unfold on_response. by rewrite H.
Qed.

(** The bodies the shape test rejects without throwing: everything but
    [null] and the objects with a numeric [result]. *)
Lemma isResponseObject_false (body : JsValue) :
  isResponseObject body = Normal false ↔
  body ≠ JNull ∧ ∀ props, body = JObject props →
                   String.eqb (typeof (prop props "result")) "number" = false.
Proof.
  destruct body; cbn; split; try (intros [? ?]); try intros ?;
    try done; try (split; [done|]; intros ? [=]; fail).
  - split; [done|]. intros q [= <-]. congruence.
  - by rewrite (H0 _ eq_refl).
Qed.

(** The bodies that pass the shape test: the objects with a numeric
    [result]. *)
Lemma isResponseObject_true (body : JsValue) :
  isResponseObject body = Normal true ↔
  ∃ (props : Props) (r : number), body = JObject props ∧ props !! "result" = Some (JNumber r).
Proof.
  split.
  - destruct body as [| |b|n|s|items|props|t]; cbn; try discriminate.
    unfold prop. destruct (props !! "result") as [[| |b|n|s|items|q|t]|] eqn:E;
      cbn; try discriminate.
    intros _. by exists props, n.
  - intros (props & r & -> & Hr). rewrite isResponseObject_object.
    unfold prop. by rewrite Hr.
Qed.


(** C9: a [null] body makes [isResponseObject] throw, since [typeof null] is
    ["object"] and reading [null.result] is a TypeError; the promise rejects
    with that TypeError unchanged, and the registry entry is removed all the
    same. *)
Theorem null_body_rejects (st : Z) (text : string) :
  typeof JNull = "object" ∧
  isResponseObject JNull = Throw (TypeErrorRead JNull "result") ∧
  (settle requestID (Fulfilled (mkResponse JNull st text)) w).1 =
    RejectedWith (TypeErrorRead JNull "result") ∧
  Map_get requestID
    (requestMap (client (settle requestID (Fulfilled (mkResponse JNull st text)) w).2))
    = None.
Proof.
  repeat split; try reflexivity.
  rewrite settle_fulfilled. cbn. apply Map_get_delete_eq.
Qed.

End Success.

(** C6: the string body ["raw"] resolves unchanged, but for the body [null],
    which has no numeric [result] either, the promise rejects instead of
    resolving with [null]. *)
Theorem null_body_not_passed_through :
  (settle 1 (Fulfilled (mkResponse (JString "raw") 200 "OK")) init).1
    = Resolved (JString "raw") ∧
  (settle 1 (Fulfilled (mkResponse JNull 200 "OK")) init).1
    = RejectedWith (TypeErrorRead JNull "result") ∧
  (settle 1 (Fulfilled (mkResponse JNull 200 "OK")) init).1 ≠ Resolved JNull.
Proof. repeat split; try reflexivity. discriminate. Qed.

(** ** Transport failure *)



(** ** Settlement and the registry *)

Lemma deliver_in_flight (w : World) (p : Promise) (d : Dispatched)
    (answer : TransportOutcome) :
  dispatched w !! p = Some d →
  d_settlement d = None →
  ∃ n,
    let o := transport_outcome w (d_config d) answer in
    let s := (settle (d_requestID d) o w).1 in
    (deliver p answer w).2 =
      {| client := client (after_delete (d_requestID d) w (S n));
         allocated := allocated w; reasons := reasons w;
         dispatched :=
           <[p := mkDispatched (d_requestID d) (d_config d) (Some s)]> (dispatched w);
         events := events (after_delete (d_requestID d) w (S n)) ++ [Settle p s] |}.
Proof.
  intros Hp Hd. unfold deliver. rewrite Hp, Hd. unfold bind.
  destruct (settle_world (d_requestID d) w (transport_outcome w (d_config d) answer))
    as [n Hn].
  exists n. cbn zeta.
  destruct (settle _ _ w) as [s w'] eqn:E. cbn in Hn. subst w'. reflexivity.
Qed.

(** C3: when the transport answers a request in flight, whatever the answer
    and whatever path the handlers take, the promise settles, the effects
    start with the removal of the request's registry entry and end with the
    settlement of the promise, and the identifier is absent from the
    registry in the world the settlement leaves. *)
Theorem settled_request_unregistered (w : World) (p : Promise) (d : Dispatched)
    (answer : TransportOutcome) :
  dispatched w !! p = Some d →
  d_settlement d = None →
  ∃ (s : Settlement) (again : nat),
    settlement (deliver p answer w).2 p = Some s ∧
    events (deliver p answer w).2 =
      events w ++ MapDelete (d_requestID d)
        :: replicate again (MapDelete (d_requestID d)) ++ [Settle p s] ∧
    Map_get (d_requestID d) (requestMap (client (deliver p answer w).2)) = None.
Proof.
  intros Hp Hd.
  destruct (deliver_in_flight w p d answer Hp Hd) as [n Hw]. cbn zeta in Hw.
  eexists _, n. rewrite Hw. cbn. repeat split.
  - unfold settlement. cbn.
    rewrite list_lookup_insert_eq by (by eapply lookup_lt_Some). reflexivity.
  - by rewrite <- app_assoc.
  - apply Map_get_delete_eq.
Qed.

(** ** Dispatch *)

Section Dispatch.
Variables (method : Method) (url : string) (options : Props) (w : World).

(** The identifier the call assigns. *)
Local Abbreviation requestID := (Js.succ (currentId (client w))).

Lemma request_supplied :
  truthy (prop options "cancelToken") = true →
  request method url options w =
    let options' := <["cancelToken" := prop options "cancelToken"]> options in
    let config := spread (defaults method url) options' in
    ((length (dispatched w), options'),
     {| client := {| currentId := requestID; requestMap := requestMap (client w) |};
        allocated := allocated w; reasons := reasons w;
        dispatched := dispatched w ++ [mkDispatched requestID config None];
        events := events w ++ [HttpRequest (length (dispatched w)) config] |}).
Proof.
  intros H. unfold request, bind, ret, incr_currentId, modify_client, get_client.
  cbn. rewrite H. reflexivity.
Qed.

Lemma request_created :
  truthy (prop options "cancelToken") = false →
  request method url options w =
    let source := mkSource (allocated w) in
    let options' := <["cancelToken" := JCancelToken (token source)]> options in
    let config := spread (defaults method url) options' in
    ((length (dispatched w), options'),
     {| client := {| currentId := requestID;
                     requestMap := Map_set requestID source (requestMap (client w)) |};
        allocated := S (allocated w); reasons := reasons w;
        dispatched := dispatched w ++ [mkDispatched requestID config None];
        events := events w ++ [MapSet requestID source;
                               HttpRequest (length (dispatched w)) config] |}).
Proof.
  intros H. unfold request, bind, ret, incr_currentId, modify_client, get_client.
  cbn. rewrite H. cbn. by rewrite <- app_assoc.
Qed.

(** [get] and [post] are [request] with the method fixed and empty options
    by default. *)
Lemma get_post_request (u : string) (o : option Props) :
  get u o = request "GET" u (default ∅ o) ∧ post u o = request "POST" u (default ∅ o).
Proof. split; reflexivity. Qed.

(** C5: a call whose options hold a cancellation token creates no source and
    leaves the registry as it was; a call whose options hold none creates
    one source and registers it under the identifier the call assigns. *)
Theorem registration_iff_no_token :
  let w' := (request method url options w).2 in
  if truthy (prop options "cancelToken") then
    allocated w' = allocated w ∧
    requestMap (client w') = requestMap (client w) ∧
    (∀ k source, MapSet k source ∉ drop (length (events w)) (events w'))
  else
    allocated w' = S (allocated w) ∧
    requestMap (client w') =
      Map_set requestID (mkSource (allocated w)) (requestMap (client w)) ∧
    Map_get requestID (requestMap (client w')) = Some (mkSource (allocated w)) ∧
    MapSet requestID (mkSource (allocated w)) ∈ drop (length (events w)) (events w').
Proof.
  cbn zeta. destruct (truthy (prop options "cancelToken")) eqn:H.
  - rewrite (request_supplied H). cbn. repeat split.
    intros k source. rewrite drop_app_length.
    by intros [[=]|Hin%elem_of_nil]%elem_of_cons.
  - rewrite (request_created H). cbn. repeat split.
    + apply Map_get_set_eq.
    + rewrite drop_app_length. apply elem_of_cons. by left.
Qed.

Lemma lookup_defaults (key : string) :
  defaults method url !! key =
    if decide (key = "method") then Some (JString method)
    else if decide (key = "url") then Some (JString url)
    else if decide (key = "timeout") then Some (JNumber 60000%float)
    else None.
Proof.
  unfold defaults. repeat (rewrite lookup_insert; case_decide; [by subst|]).
  rewrite lookup_empty. repeat case_decide; congruence.
Qed.

(** C8: the dispatched configuration holds, for every field, the value of
    the caller's options when they have the field (the cancellation token
    being the caller's or the created one), and otherwise the default: the
    given method, the given url and a timeout of 60000 ms; so without a
    caller's timeout the dispatched timeout is 60000. *)
Theorem dispatched_config :
  ∃ d : Dispatched,
    dispatched (request method url options w).2 !! (request method url options w).1.1
      = Some d ∧
    (∀ key : string, key ≠ "cancelToken" →
       d_config d !! key =
         match options !! key with
         | Some v => Some v
         | None =>
             if decide (key = "method") then Some (JString method)
             else if decide (key = "url") then Some (JString url)
             else if decide (key = "timeout") then Some (JNumber 60000%float)
             else None
         end) ∧
    d_config d !! "cancelToken" =
      (if truthy (prop options "cancelToken") then options !! "cancelToken"
       else Some (JCancelToken (allocated w))) ∧
    (options !! "timeout" = None → d_config d !! "timeout" = Some (JNumber 60000%float)).
Proof.
  assert (Hspread : ∀ (o : Props) (key : string),
    spread (defaults method url) o !! key =
      match o !! key with Some v => Some v | None => defaults method url !! key end).
  { intros o key. unfold spread. rewrite lookup_union.
    destruct (o !! key), (defaults method url !! key); reflexivity. }
  destruct (truthy (prop options "cancelToken")) eqn:H.
  - rewrite (request_supplied H). cbn.
    eexists. split; [apply list_lookup_middle; reflexivity|]. cbn.
    split; [|split].
    + intros key Hk. rewrite Hspread, lookup_insert_ne by done.
      by rewrite lookup_defaults.
    + rewrite Hspread, lookup_insert_eq. unfold prop in *.
      destruct (options !! "cancelToken"); [done | discriminate].
    + intros Ht. rewrite Hspread, lookup_insert_ne by done. by rewrite Ht.
  - rewrite (request_created H). cbn.
    eexists. split; [apply list_lookup_middle; reflexivity|]. cbn.
    split; [|split].
    + intros key Hk. rewrite Hspread, lookup_insert_ne by done.
      by rewrite lookup_defaults.
    + by rewrite Hspread, lookup_insert_eq.
    + intros Ht. rewrite Hspread, lookup_insert_ne by done. by rewrite Ht.
Qed.

End Dispatch.

(** ** dispose *)

Section Dispose.
Variable msg : option string.

Local Abbreviation cancel_all := (cancel_all msg).

Lemma forEach_cancel (m : RequestMap) (w : World) :
  forEach m (λ source, source_cancel source msg) w =
    (tt, {| client := client w; allocated := allocated w;
            reasons := cancel_all m (reasons w);
            dispatched := dispatched w;
            events := events w ++ ((λ e, SourceCancel e.2 msg) <$> m) |}).
Proof.
  revert w. induction m as [|[k source] m IH]; intros w; cbn.
  - rewrite app_nil_r. by destruct w.
  - rewrite IH. cbn. by rewrite <- app_assoc.
Qed.

Lemma dispose_world (w : World) :
  (dispose msg w).2 =
    {| client := client w; allocated := allocated w;
       reasons := cancel_all (requestMap (client w)) (reasons w);
       dispatched := dispatched w;
       events := events w ++ ((λ e, SourceCancel e.2 msg) <$> requestMap (client w)) |}.
Proof. unfold dispose, bind, get_client. by rewrite forEach_cancel. Qed.

Lemma dispose_registry (w : World) :
  requestMap (client (dispose msg w).2) = requestMap (client w).
Proof. by rewrite dispose_world. Qed.

Lemma set_reason_is_Some (t t' : CancelToken) (rs : gmap CancelToken Cancel) :
  is_Some (rs !! t) ∨ t = t' → is_Some (set_reason t' msg rs !! t).
Proof.
  unfold set_reason. intros [H| ->].
  - destruct (rs !! t') eqn:E; [done|].
    destruct (decide (t = t')) as [->|Hne].
    + by rewrite lookup_insert_eq.
    + by rewrite lookup_insert_ne.
  - destruct (rs !! t') eqn:E; [by rewrite E|]. by rewrite lookup_insert_eq.
Qed.

Lemma cancel_all_is_Some (m : RequestMap) (rs : gmap CancelToken Cancel)
    (t : CancelToken) :
  is_Some (rs !! t) ∨ (∃ k, (k, mkSource t) ∈ m) → is_Some (cancel_all m rs !! t).
Proof.
  revert rs. induction m as [|[k [t']] m IH]; intros rs; cbn.
  - intros [H|[k H]]; [done|]. by apply elem_of_nil in H.
  - intros [H|[k' H]]; apply IH.
    + left. apply set_reason_is_Some. by left.
    + apply elem_of_cons in H as [[= -> ->]|H].
      * left. apply set_reason_is_Some. by right.
      * right. eauto.
Qed.

End Dispose.

(** A request in flight whose token has a reason rejects as cancelled,
    whatever the network answers, and the delivery leaves the reasons and
    the other promises alone. *)
Lemma deliver_cancelled (w : World) (p : Promise) (d : Dispatched) (t : CancelToken)
    (answer : TransportOutcome) :
  dispatched w !! p = Some d →
  d_settlement d = None →
  config_token (d_config d) = Some t →
  is_Some (reasons w !! t) →
  settlement (deliver p answer w).2 p = Some cancelled ∧
  reasons (deliver p answer w).2 = reasons w ∧
  ∀ q, q ≠ p → dispatched (deliver p answer w).2 !! q = dispatched w !! q.
Proof.
  intros Hp Hd Ht [c Hc].
  destruct (deliver_in_flight w p d answer Hp Hd) as [n Hw]. cbn zeta in Hw.
  rewrite Hw. cbn. repeat split.
  - unfold settlement. cbn.
    rewrite list_lookup_insert_eq by (by eapply lookup_lt_Some). cbn.
    unfold transport_outcome. by rewrite Ht, Hc.
  - intros q Hq. by rewrite list_lookup_insert_ne.
Qed.

(** Once [dispose] was called, two requests in flight under registered
    tokens both reject as cancelled. *)
Lemma dispose_then_answers (msg : option string) (w : World)
    (p1 p2 : Promise) (d1 d2 : Dispatched) (k1 k2 : Z) (t1 t2 : CancelToken)
    (a1 a2 : TransportOutcome) :
  p1 ≠ p2 →
  dispatched w !! p1 = Some d1 → d_settlement d1 = None →
  dispatched w !! p2 = Some d2 → d_settlement d2 = None →
  config_token (d_config d1) = Some t1 → (k1, mkSource t1) ∈ requestMap (client w) →
  config_token (d_config d2) = Some t2 → (k2, mkSource t2) ∈ requestMap (client w) →
  let w' := run w [CallDispose msg; Answer p1 a1; Answer p2 a2] in
  settlement w' p1 = Some cancelled ∧ settlement w' p2 = Some cancelled.
Proof.
  intros Hne Hp1 Hd1 Hp2 Hd2 Ht1 Hk1 Ht2 Hk2.
  unfold run. cbn [foldl step].
  pose proof (dispose_world msg w) as Hw.
  set (w1 := (dispose msg w).2) in *.
  assert (Hdisp : dispatched w1 = dispatched w) by (by rewrite Hw).
  assert (H1 : is_Some (reasons w1 !! t1))
    by (rewrite Hw; apply cancel_all_is_Some; eauto).
  assert (H2 : is_Some (reasons w1 !! t2))
    by (rewrite Hw; apply cancel_all_is_Some; eauto).
  rewrite <- Hdisp in Hp1, Hp2.
  destruct (deliver_cancelled w1 p1 d1 t1 a1) as (Hs1 & Hr1 & Ho1); try done.
  set (w2 := (deliver p1 a1 w1).2) in *.
  assert (Hp2' : dispatched w2 !! p2 = Some d2) by (by rewrite Ho1).
  destruct (deliver_cancelled w2 p2 d2 t2 a2) as (Hs2 & _ & Ho2); try done.
  { by rewrite Hr1. }
  split; [|done].
  unfold settlement in *. rewrite Ho2; done.
Qed.

(** C4: [dispose] calls [cancel] with its message once for every entry of the
    registry, in order, and does nothing else: the client, with its registry,
    is as before, and on an empty registry the world is untouched.  Two
    requests in flight under registered tokens both reject as cancelled once
    [dispose] was called, whatever the network answers afterwards. *)
Theorem dispose_cancels_registered (msg : option string) (w : World) :
  events (dispose msg w).2 =
    events w ++ ((λ e, SourceCancel e.2 msg) <$> requestMap (client w)) ∧
  client (dispose msg w).2 = client w ∧
  dispatched (dispose msg w).2 = dispatched w ∧
  (requestMap (client w) = [] → (dispose msg w).2 = w) ∧
  ∀ (p1 p2 : Promise) (d1 d2 : Dispatched) (k1 k2 : Z) (t1 t2 : CancelToken)
    (a1 a2 : TransportOutcome),
    p1 ≠ p2 →
    dispatched w !! p1 = Some d1 → d_settlement d1 = None →
    dispatched w !! p2 = Some d2 → d_settlement d2 = None →
    config_token (d_config d1) = Some t1 → (k1, mkSource t1) ∈ requestMap (client w) →
    config_token (d_config d2) = Some t2 → (k2, mkSource t2) ∈ requestMap (client w) →
    let w' := run w [CallDispose msg; Answer p1 a1; Answer p2 a2] in
    settlement w' p1 = Some cancelled ∧ settlement w' p2 = Some cancelled.
Proof.
  rewrite dispose_world. cbn [events client dispatched].
  split; [done|]. split; [done|]. split; [done|]. split.
  - intros Hm. rewrite Hm. cbn. rewrite app_nil_r. by destruct w.
  - intros. by eapply dispose_then_answers.
Qed.

(** ** The cancel callback of useApi *)

(** [dispose] does act on a world with a registered request. *)
Lemma dispose_acts :
  let w := run init [CallRequest "GET" "/a" ∅] in
  events (dispose (Some "stop") w).2 = events w ++ [SourceCancel (mkSource 0%nat) (Some "stop")] ∧
  reasons (dispose (Some "stop") w).2 !! 0%nat = Some (mkCancel (Some "stop")) ∧
  reasons w !! 0%nat = None.
Proof. cbn zeta. rewrite dispose_world. repeat split. Qed.

(** The cleanup of the hooks is [dispose] with the teardown message. *)
Lemma cleanup_events (w : World) :
  events (cleanup w).2 =
    events w ++ ((λ e, SourceCancel e.2 (Some "组建销毁，中止请求")) <$> requestMap (client w)).
Proof. unfold cleanup. by rewrite dispose_world. Qed.

Lemma run_app (w : World) (l1 l2 : list Action) :
  run w (l1 ++ l2) = run (run w l1) l2.
Proof. unfold run. apply foldl_app. Qed.

(** C10: calling [cancel] with any message, in any world, returns the bound
    [dispose] without calling it: no [cancel] is called on any source, the
    registry, the reasons of the tokens and the requests in flight are what
    they were, and a run proceeds as if the call had not been made. *)
Theorem cancel_does_not_dispose (msg : option string) (w : World) :
  (cancel msg w).1 = dispose ∧
  (cancel msg w).2 = w ∧
  events (step w (CallCancel msg)) = events w ∧
  requestMap (client (step w (CallCancel msg))) = requestMap (client w) ∧
  reasons (step w (CallCancel msg)) = reasons w ∧
  dispatched (step w (CallCancel msg)) = dispatched w ∧
  ∀ l1 l2 : list Action, run w (l1 ++ CallCancel msg :: l2) = run w (l1 ++ l2).
Proof.
  repeat split.
  intros l1 l2. rewrite !run_app. reflexivity.
Qed.

(** ** Identifiers *)

Section Identifiers.

Lemma MAX_EXACT_pos : 0 < MAX_EXACT.
Proof. reflexivity. Qed.

Lemma succ_nth_id (n : nat) : Js.succ (nth_id n) = nth_id (S n).
Proof. unfold Js.succ, nth_id. case_match; [apply Z.ltb_lt in H | apply Z.ltb_ge in H]; lia. Qed.

Lemma step_ids_inv (w : World) (n : nat) (a : Action) :
  ids_inv w n → ids_inv (step w a) (if is_request a then S n else n).
Proof.
  intros [Hc Ha]. destruct a as [method url options|msg|msg|p answer]; cbn [is_request step].
  - assert (Hw : currentId (client (request method url options w).2) = Js.succ (currentId (client w))
               ∧ assigned (request method url options w).2 = assigned w ++ [Js.succ (currentId (client w))]).
    { destruct (truthy (prop options "cancelToken")) eqn:H.
      - rewrite (request_supplied _ _ _ _ H). unfold assigned. cbn. by rewrite fmap_app.
      - rewrite (request_created _ _ _ _ H). unfold assigned. cbn. by rewrite fmap_app. }
    destruct Hw as [Hc' Ha']. split.
    + by rewrite Hc', Hc, succ_nth_id.
    + rewrite Ha', Ha, Hc, succ_nth_id, seq_S, fmap_app. reflexivity.
  - rewrite dispose_world. done.
  - done.
  - destruct (dispatched w !! p) as [d|] eqn:Hp;
      [destruct (d_settlement d) eqn:Hd|].
    + unfold deliver. by rewrite Hp, Hd.
    + destruct (deliver_in_flight w p d answer Hp Hd) as [k Hw]. cbn zeta in Hw.
      rewrite Hw. split; [done|].
      unfold assigned in *. cbn. rewrite list_fmap_insert. cbn.
      rewrite list_insert_id; [done|]. by rewrite list_lookup_fmap, Hp.
    + unfold deliver. by rewrite Hp.
Qed.

Lemma run_snoc (w : World) (l : list Action) (a : Action) :
  run w (l ++ [a]) = step (run w l) a.
Proof. unfold run. by rewrite foldl_app. Qed.

Lemma request_calls_snoc (l : list Action) (a : Action) :
  request_calls (l ++ [a]) = ((if is_request a then 1 else 0) + request_calls l)%nat.
Proof. induction l as [|b l IH]; cbn; [lia|]. rewrite IH. lia. Qed.

Lemma run_ids_inv (l : list Action) : ids_inv (run init l) (request_calls l).
Proof.
  induction l as [|a l IH] using rev_ind; [done|].
  rewrite run_snoc, request_calls_snoc.
  apply (step_ids_inv _ _ a) in IH. by destruct (is_request a).
Qed.


Lemma seq_sorted (a n : nat) : StronglySorted Z.lt (Z.of_nat <$> seq a n).
Proof.
  revert a. induction n as [|n IH]; intros a; cbn; constructor; [apply IH|].
  apply Forall_fmap, Forall_seq. intros i Hi. cbn. lia.
Qed.

Lemma sorted_lt_NoDup (l : list Z) : StronglySorted Z.lt l → NoDup l.
Proof.
  induction 1 as [|x l Hs IH Hx]; constructor; [|done].
  intros Hin. rewrite Forall_forall in Hx. specialize (Hx _ Hin). lia.
Qed.

Lemma nth_id_exact (n : nat) :
  Z.of_nat n ≤ MAX_EXACT →
  nth_id <$> seq 1 n = Z.of_nat <$> seq 1 n.
Proof.
  intros Hn. apply list_eq. intros i. rewrite !list_lookup_fmap.
  destruct (seq 1 n !! i) as [k|] eqn:E; [|done]. cbn.
  apply lookup_seq in E as [-> Hi]. f_equal. unfold nth_id. lia.
Qed.

(** C2 (bounded): however the calls are interleaved with answers of the
    transport and with calls of [dispose] and [cancel], as long as no more
    than 2^53 calls of [request] are made on a client, the identifiers
    assigned are 1, 2, 3, ... in call order: strictly increasing, greater
    than zero and pairwise distinct. *)
Theorem identifiers_increase (l : list Action) :
  Z.of_nat (request_calls l) ≤ MAX_EXACT →
  assigned (run init l) = Z.of_nat <$> seq 1 (request_calls l) ∧
  StronglySorted Z.lt (assigned (run init l)) ∧
  Forall (λ i, 0 < i) (assigned (run init l)) ∧
  NoDup (assigned (run init l)).
Proof.
  intros Hn. destruct (run_ids_inv l) as [_ Ha].
  rewrite Ha, nth_id_exact by done. split; [done|]. split; [|split].
  - apply seq_sorted.
  - apply Forall_fmap, Forall_seq. intros i Hi. cbn. lia.
  - apply NoDup_fmap; [apply _|]. apply NoDup_seq.
Qed.

Lemma request_calls_replicate (n : nat) (a : Action) :
  is_request a = true → request_calls (replicate n a) = n.
Proof. intros Ha. induction n as [|n IH]; cbn; [done|]. by rewrite Ha, IH. Qed.

Lemma identifiers_saturate (N : nat) (a : Action) :
  is_request a = true →
  Z.of_nat N = MAX_EXACT + 1 →
  let ids := assigned (run init (replicate N a)) in
  ids !! (N - 2)%nat = Some MAX_EXACT ∧
  ids !! (N - 1)%nat = Some MAX_EXACT ∧
  ¬ NoDup ids ∧
  ¬ StronglySorted Z.lt ids.
Proof.
  intros Ha HN. pose proof MAX_EXACT_pos as Hpos. cbn zeta.
  destruct (run_ids_inv (replicate N a)) as [_ Hids].
  rewrite request_calls_replicate in Hids by done. rewrite Hids.
  assert (H1 : (nth_id <$> seq 1 N) !! (N - 2)%nat
               = Some MAX_EXACT).
  { rewrite list_lookup_fmap, lookup_seq_lt by lia. cbn [fmap option_fmap option_map].
    f_equal. unfold nth_id. lia. }
  assert (H2 : (nth_id <$> seq 1 N) !! (N - 1)%nat
               = Some MAX_EXACT).
  { rewrite list_lookup_fmap, lookup_seq_lt by lia. cbn [fmap option_fmap option_map].
    f_equal. unfold nth_id. lia. }
  split; [exact H1|]. split; [exact H2|]. split.
  - intros Hnd. pose proof (NoDup_lookup _ _ _ _ Hnd H1 H2). lia.
  - intros Hs. apply sorted_lt_NoDup in Hs.
    pose proof (NoDup_lookup _ _ _ _ Hs H1 H2). lia.
Qed.

End Identifiers.

(** C2 (as stated) fails: a [number] counts exactly up to 2^53 only.  On the
    run of 2^53 + 1 calls of [request], the last two calls are both assigned
    2^53, so the identifiers are neither pairwise distinct nor strictly
    increasing. *)
Lemma identifiers_repeat_beyond_exact :
  let ids := assigned (run init (replicate beyond_exact (CallRequest "GET" "/" ∅))) in
  ids !! (beyond_exact - 2)%nat = Some MAX_EXACT ∧
  ids !! (beyond_exact - 1)%nat = Some MAX_EXACT ∧
  ¬ NoDup ids ∧
  ¬ StronglySorted Z.lt ids.
Proof.
  refine (identifiers_saturate beyond_exact (CallRequest "GET" "/" ∅) eq_refl _).
  unfold beyond_exact. rewrite Z2Nat.id; [reflexivity|].
  pose proof MAX_EXACT_pos. lia.
Qed.

(** ** The counter as a double *)

(** The two sums at the edge of the exact range, computed on doubles: the
    last exact successor, and the first that rounds back. *)
Example succ_last_exact :
  (9007199254740991 + 1)%float = 9007199254740992%float ∧
  Js.succ 9007199254740991 = 9007199254740992.
Proof. split; reflexivity. Qed.

Example succ_rounds_back :
  (9007199254740992 + 1)%float = 9007199254740992%float ∧
  Js.succ 9007199254740992 = 9007199254740992.
Proof. split; reflexivity. Qed.

(** ** Completed requests and the registry *)

Section Completed.

Lemma deliver_settlement (w : World) (p : Promise) (d : Dispatched)
    (answer : TransportOutcome) :
  dispatched w !! p = Some d →
  d_settlement d = None →
  settlement (deliver p answer w).2 p =
    Some (settle (d_requestID d) (transport_outcome w (d_config d) answer) w).1.
Proof.
  intros Hp Hd. destruct (deliver_in_flight w p d answer Hp Hd) as [n Hw].
  cbn zeta in Hw. rewrite Hw. unfold settlement. cbn.
  by rewrite list_lookup_insert_eq by (by eapply lookup_lt_Some).
Qed.

Lemma step_settled_absent (w : World) (n : nat) (a : Action) :
  Z.of_nat (if is_request a then S n else n) ≤ MAX_EXACT →
  ids_inv w n → settled_absent w → settled_absent (step w a).
Proof.
  intros Hn [Hc Ha] Hw.
  destruct a as [method url options|msg|msg|p answer]; cbn [is_request step] in *.
  - assert (Hfresh : ∀ q d, dispatched w !! q = Some d →
                            d_requestID d ≠ Js.succ (currentId (client w))).
    { intros q d Hq Heq.
      assert (Hin : d_requestID d ∈ assigned w).
      { unfold assigned. apply list_elem_of_fmap. exists d. split; [done|].
        by eapply list_elem_of_lookup_2. }
      rewrite Ha in Hin. apply list_elem_of_fmap in Hin as (i & Hi & Hseq).
      apply elem_of_seq in Hseq. rewrite Heq, Hc, succ_nth_id in Hi.
      unfold nth_id in Hi. lia. }
    intros q d s Hq Hs.
    destruct (truthy (prop options "cancelToken")) eqn:H.
    + rewrite (request_supplied _ _ _ _ H) in Hq |- *. cbn in Hq |- *.
      apply lookup_app_Some in Hq as [Hq|[_ Hq]].
      * by eapply Hw.
      * apply list_lookup_singleton_Some in Hq as [_ <-]. discriminate.
    + rewrite (request_created _ _ _ _ H) in Hq |- *. cbn in Hq |- *.
      apply lookup_app_Some in Hq as [Hq|[_ Hq]].
      * rewrite Map_get_set_ne by (by eapply Hfresh). by eapply Hw.
      * apply list_lookup_singleton_Some in Hq as [_ <-]. discriminate.
  - rewrite dispose_world. exact Hw.
  - exact Hw.
  - destruct (dispatched w !! p) as [d|] eqn:Hp;
      [destruct (d_settlement d) eqn:Hd|].
    + unfold deliver. by rewrite Hp, Hd.
    + destruct (deliver_in_flight w p d answer Hp Hd) as [k Hk]. cbn zeta in Hk.
      rewrite Hk. intros q d' s Hq Hs. cbn in Hq |- *.
      destruct (decide (d_requestID d' = d_requestID d)) as [->|Hne].
      * apply Map_get_delete_eq.
      * rewrite Map_get_delete_ne by done.
        destruct (decide (q = p)) as [->|Hqp].
        -- rewrite list_lookup_insert_eq in Hq by (by eapply lookup_lt_Some).
           by injection Hq as <-.
        -- rewrite list_lookup_insert_ne in Hq by done. by eapply Hw.
    + unfold deliver. by rewrite Hp.
Qed.

(** The registry never holds an entry for a completed request, on any run
    within the exact range of the counter. *)
Lemma run_settled_absent (l : list Action) :
  Z.of_nat (request_calls l) ≤ MAX_EXACT → settled_absent (run init l).
Proof.
  induction l as [|a l IH] using rev_ind; intros Hn.
  - intros p d s Hp. cbn in Hp. by rewrite lookup_nil in Hp.
  - rewrite request_calls_snoc in Hn. rewrite run_snoc.
    apply (step_settled_absent _ (request_calls l)).
    + destruct (is_request a); lia.
    + apply run_ids_inv.
    + apply IH. lia.
Qed.

End Completed.

(** ** Registered requests and dispose *)

Section Registered.

Lemma elem_of_Map_set (k : Z) (v : CancelTokenSource) (m : RequestMap) :
  (k, v) ∈ Map_set k v m.
Proof.
  induction m as [|[k' v'] m IH]; cbn.
  - apply elem_of_cons. by left.
  - destruct (k =? k'); apply elem_of_cons; [by left | by right].
Qed.

Lemma elem_of_Map_set_ne (k k' : Z) (v v' : CancelTokenSource) (m : RequestMap) :
  k ≠ k' → (k, v) ∈ m → (k, v) ∈ Map_set k' v' m.
Proof.
  intros Hne. induction m as [|[k1 v1] m IH]; cbn; intros Hin.
  - by apply elem_of_nil in Hin.
  - apply elem_of_cons in Hin as [[= <- <-]|Hin].
    + rewrite (proj2 (Z.eqb_neq k' k)) by done. apply elem_of_cons. by left.
    + destruct (k' =? k1); apply elem_of_cons; right; [done | by apply IH].
Qed.

Lemma config_token_created (method : Method) (url : string) (options : Props)
    (t : CancelToken) :
  config_token (spread (defaults method url) (<["cancelToken" := JCancelToken t]> options))
    = Some t.
Proof.
  unfold config_token, prop, spread.
  by rewrite (lookup_union_Some_l _ _ _ (JCancelToken t)) by apply lookup_insert_eq.
Qed.

(** Two requests made without a token, then [dispose]: both reject as
    cancelled, whatever the network answers. *)
Lemma two_requests_disposed (w : World) (m1 m2 : Method) (u1 u2 : string)
    (o1 o2 : Props) (msg : option string) (a1 a2 : TransportOutcome) :
  currentId (client w) + 1 < MAX_EXACT →
  truthy (prop o1 "cancelToken") = false →
  truthy (prop o2 "cancelToken") = false →
  let p1 := length (dispatched w) in
  let p2 := S (length (dispatched w)) in
  let w' := run w [CallRequest m1 u1 o1; CallRequest m2 u2 o2;
                   CallDispose msg; Answer p1 a1; Answer p2 a2] in
  settlement w' p1 = Some cancelled ∧ settlement w' p2 = Some cancelled.
Proof.
  intros Hc H1 H2. cbn zeta. unfold run. cbn [foldl step].
  rewrite (request_created m1 u1 o1 w H1). cbn [snd]. cbn zeta.
  set (w1 := {| client := _ |}).
  rewrite (request_created m2 u2 o2 w1 H2). cbn [snd]. cbn zeta.
  set (w2 := {| client := _ |}).
  assert (Hid : Js.succ (Js.succ (currentId (client w))) ≠ Js.succ (currentId (client w))).
  { unfold Js.succ. repeat case_match; rewrite ?Z.ltb_lt, ?Z.ltb_ge in *; lia. }
  eapply (dispose_then_answers msg w2 _ _ _ _
            (Js.succ (currentId (client w))) (Js.succ (Js.succ (currentId (client w))))
            (allocated w) (S (allocated w))).
  - lia.
  - subst w2 w1. cbn. rewrite <- app_assoc. apply list_lookup_middle. reflexivity.
  - reflexivity.
  - subst w2 w1. cbn. apply list_lookup_middle. by rewrite length_app, Nat.add_1_r.
  - reflexivity.
  - apply config_token_created.
  - subst w2 w1. cbn. apply elem_of_Map_set_ne; [done|]. apply elem_of_Map_set.
  - apply config_token_created.
  - subst w2 w1. cbn. apply elem_of_Map_set.
Qed.

End Registered.

(** ** Instances *)

(** C1 at the body [{ result: -1, data: "X" }]: the promise resolves with
    ["X"]. *)
Lemma envelope_settlement_witness :
  (data (mkResponse (JObject body_ok) 200 "OK") = JObject body_ok ∧
   body_ok !! "result" = Some (JNumber (-1)%float)) ∧
  isResponseObject (JObject body_ok) = Normal true ∧
  (settle 1 (Fulfilled (mkResponse (JObject body_ok) 200 "OK")) init).1
    = Resolved (JString "X").
Proof.
  split; [split; reflexivity|].
  exact (envelope_settlement 1 init (mkResponse (JObject body_ok) 200 "OK")
           body_ok (-1)%float eq_refl eq_refl).
Defined.

(** The body [{ result: 7, data: null }] rejects with code 7. *)
Example envelope_failed :
  (settle 1 (Fulfilled (mkResponse (JObject body_failed) 200 "OK")) init).1
    = RejectedWith (ThrownHttpError (mkHttpError "请求错误" (JNumber 7%float))).
Proof. reflexivity. Qed.

(** Options with a timeout, a method and a token of the caller: they win
    over the defaults, the url is the given one, and nothing is registered. *)
Example request_with_options :
  let options : Props :=
    <["timeout" := JNumber 5000%float]>
      (<["method" := JString "PUT"]> (<["cancelToken" := JCancelToken 7]> ∅)) in
  let r := request "GET" "/a" options init in
  (d_config <$> dispatched r.2 !! r.1.1) =
    Some (<["url" := JString "/a"]> options) ∧
  requestMap (client r.2) = [] ∧ allocated r.2 = 0%nat ∧ currentId (client r.2) = 1.
Proof. cbn zeta. repeat split. Qed.


(** C2 (bounded) on a run with three requests: the identifiers are 1, 2, 3. *)
Lemma identifiers_increase_witness :
  Z.of_nat (request_calls three_calls) ≤ MAX_EXACT ∧
  assigned (run init three_calls) = [1; 2; 3] ∧
  StronglySorted Z.lt (assigned (run init three_calls)) ∧
  Forall (λ i, 0 < i) (assigned (run init three_calls)) ∧
  NoDup (assigned (run init three_calls)).
Proof.
  assert (H : Z.of_nat (request_calls three_calls) ≤ MAX_EXACT) by discriminate.
  split; [exact H|]. exact (identifiers_increase three_calls H).
Defined.

(** C3 on the second of two requests in flight, rejected by the transport
    with [null]. *)
Lemma settled_request_unregistered_witness :
  let d := mkDispatched 2 (config_of "POST" "/b" 1) None in
  (dispatched two_in_flight !! 1%nat = Some d ∧ d_settlement d = None) ∧
  ∃ (s : Settlement) (again : nat),
    settlement (deliver 1 (Rejected (ThrownOther JNull)) two_in_flight).2 1%nat = Some s ∧
    events (deliver 1 (Rejected (ThrownOther JNull)) two_in_flight).2 =
      events two_in_flight ++ MapDelete 2
        :: replicate again (MapDelete 2) ++ [Settle 1%nat s] ∧
    Map_get 2 (requestMap (client (deliver 1 (Rejected (ThrownOther JNull)) two_in_flight).2))
      = None.
Proof.
  split; [split; reflexivity|].
  exact (settled_request_unregistered two_in_flight 1
           (mkDispatched 2 (config_of "POST" "/b" 1) None)
           (Rejected (ThrownOther JNull)) eq_refl eq_refl).
Defined.

(** C4 on two requests in flight: [dispose("reason")] cancels both sources,
    both promises reject as cancelled whatever the network answers, and a
    second [dispose] on the emptied registry changes nothing. *)
Lemma dispose_cancels_registered_witness :
  let msg := Some "reason" in
  let w := two_in_flight in
  let a1 := Fulfilled (mkResponse (JObject body_ok) 200 "OK") in
  let a2 := Rejected (ThrownOther JNull) in
  let w' := run w [CallDispose msg; Answer 0%nat a1; Answer 1%nat a2] in
  (dispatched w !! 0%nat = Some (mkDispatched 1 (config_of "GET" "/a" 0) None) ∧
   dispatched w !! 1%nat = Some (mkDispatched 2 (config_of "POST" "/b" 1) None) ∧
   requestMap (client w) = [(1, mkSource 0); (2, mkSource 1)]) ∧
  events (dispose msg w).2 =
    events w ++ [SourceCancel (mkSource 0) msg; SourceCancel (mkSource 1) msg] ∧
  client (dispose msg w).2 = client w ∧
  settlement w' 0%nat = Some cancelled ∧
  settlement w' 1%nat = Some cancelled ∧
  requestMap (client w') = [] ∧
  (dispose msg w').2 = w'.
Proof.
  cbn zeta.
  destruct (dispose_cancels_registered (Some "reason") two_in_flight)
    as (Hevents & Hclient & _ & _ & Hboth).
  destruct (Hboth 0%nat 1%nat
              (mkDispatched 1 (config_of "GET" "/a" 0) None)
              (mkDispatched 2 (config_of "POST" "/b" 1) None)
              1 2 0%nat 1%nat
              (Fulfilled (mkResponse (JObject body_ok) 200 "OK"))
              (Rejected (ThrownOther JNull)))
    as [H1 H2]; try reflexivity.
  { discriminate. }
  { apply elem_of_cons. by left. }
  { apply elem_of_cons. right. apply elem_of_cons. by left. }
  split; [repeat split|].
  split; [exact Hevents|]. split; [exact Hclient|].
  split; [exact H1|]. split; [exact H2|]. split; [reflexivity|].
  match goal with
  | |- (dispose _ ?w').2 = _ =>
      destruct (dispose_cancels_registered (Some "reason") w') as (_ & _ & _ & Hnone & _);
      exact (Hnone eq_refl)
  end.
Defined.

(** ** The options object

    [request] writes the token into the caller's options object, so the
    object always leaves the call with a token; a second call on the same
    object finds it and registers nothing. *)

Lemma request_leaves_token (method : Method) (url : string) (options : Props)
    (w : World) :
  truthy (prop (request method url options w).1.2 "cancelToken") = true.
Proof.
  destruct (truthy (prop options "cancelToken")) eqn:H.
  - rewrite (request_supplied _ _ _ _ H). cbn. unfold prop.
    by rewrite lookup_insert_eq.
  - rewrite (request_created _ _ _ _ H). cbn. unfold prop.
    by rewrite lookup_insert_eq.
Qed.

Lemma reused_options_not_registered (method method' : Method) (url url' : string)
    (options : Props) (w : World) :
  let r := request method url options w in
  requestMap (client (request method' url' r.1.2 r.2).2) = requestMap (client r.2).
Proof.
  cbn zeta.
  by rewrite (request_supplied _ _ _ _ (request_leaves_token method url options w)).
Qed.

(** * Further properties *)

(** ** The registry along a run *)

Section RegistryRuns.

Lemma elem_of_Map_set_inv (k k' : Z) (v v' : CancelTokenSource) (m : RequestMap) :
  (k, v) ∈ Map_set k' v' m → (k = k' ∧ v = v') ∨ (k, v) ∈ m.
Proof.
  induction m as [|[k1 v1] m IH]; cbn.
  - intros [[= -> ->]|H%elem_of_nil]%elem_of_cons; [by left | done].
  - destruct (k' =? k1) eqn:E.
    + intros [[= -> ->]|H]%elem_of_cons; [by left|].
      right. apply elem_of_cons. by right.
    + intros [[= -> ->]|H]%elem_of_cons.
      * right. apply elem_of_cons. by left.
      * destruct (IH H) as [?|?]; [by left|].
        right. apply elem_of_cons. by right.
Qed.

Lemma elem_of_Map_delete (k k' : Z) (v : CancelTokenSource) (m : RequestMap) :
  (k, v) ∈ Map_delete k' m ↔ k ≠ k' ∧ (k, v) ∈ m.
Proof.
  induction m as [|[k1 v1] m IH]; cbn.
  - split; [by intros H%elem_of_nil | by intros [_ H%elem_of_nil]].
  - destruct (k' =? k1) eqn:E.
    + apply Z.eqb_eq in E. subst k1. rewrite IH, elem_of_cons.
      split; [intros [? ?]; auto|].
      intros [Hne [[= -> ->]|H]]; [done | auto].
    + apply Z.eqb_neq in E. rewrite !elem_of_cons, IH.
      split.
      * intros [[= -> ->]|[? ?]]; split; auto.
      * intros [Hne [Heq|H]]; auto.
Qed.

Lemma Map_get_elem_of (k : Z) (v : CancelTokenSource) (m : RequestMap) :
  Map_get k m = Some v → (k, v) ∈ m.
Proof.
  induction m as [|[k1 v1] m IH]; cbn; [done|].
  destruct (k =? k1) eqn:E.
  - apply Z.eqb_eq in E. subst k1. intros [= ->]. apply elem_of_cons. by left.
  - intros H. apply elem_of_cons. right. by apply IH.
Qed.

Lemma step_registry_in_flight (w : World) (a : Action) :
  registry_in_flight w → registry_in_flight (step w a).
Proof.
  intros Hw. destruct a as [method url options|msg|msg|p answer]; cbn [step].
  - destruct (truthy (prop options "cancelToken")) eqn:H.
    + rewrite (request_supplied _ _ _ _ H). cbn. intros k source Hin.
      destruct (Hw k source Hin) as (q & d & Hq & ?).
      exists q, d. split; [|done]. by apply lookup_app_l_Some.
    + rewrite (request_created _ _ _ _ H). cbn. intros k source Hin.
      apply elem_of_Map_set_inv in Hin as [[-> ->]|Hin].
      * eexists (length (dispatched w)), _.
        split; [apply list_lookup_middle; reflexivity|]. cbn.
        repeat split. apply config_token_created.
      * destruct (Hw k source Hin) as (q & d & Hq & ?).
        exists q, d. split; [|done]. by apply lookup_app_l_Some.
  - rewrite dispose_world. exact Hw.
  - exact Hw.
  - destruct (dispatched w !! p) as [d|] eqn:Hp;
      [destruct (d_settlement d) eqn:Hd|].
    + unfold deliver. by rewrite Hp, Hd.
    + destruct (deliver_in_flight w p d answer Hp Hd) as [n Hn]. cbn zeta in Hn.
      rewrite Hn. cbn. intros k source [Hne Hin]%elem_of_Map_delete.
      destruct (Hw k source Hin) as (q & d' & Hq & Hk & Hrest).
      exists q, d'. split; [|done]. cbn.
      rewrite list_lookup_insert_ne; [done|].
      intros ->. rewrite Hp in Hq. injection Hq as <-. done.
    + unfold deliver. by rewrite Hp.
Qed.

Lemma request_call_set (method : Method) (url : string) (options : OptionsObject)
    (w : World) :
  can_set options "cancelToken" = true →
  request_call method url options w =
    let r := request method url (own options) w in
    (Returns (r.1.1, mkOptionsObject r.1.2 (integrity options)), r.2).
Proof.
  intros Hset.
  unfold request_call, request, bind, ret, incr_currentId, modify_client, get_client.
  cbn. rewrite Hset. by destruct (truthy (prop (own options) "cancelToken")).
Qed.

(** The call the object refuses: the identifier is used up, a source is
    registered when the object held no token, and nothing is dispatched. *)
Lemma request_call_refused (method : Method) (url : string) (options : OptionsObject)
    (w : World) :
  can_set options "cancelToken" = false →
  request_call method url options w =
    (ThrowsTypeError "cancelToken",
     if truthy (prop (own options) "cancelToken") then
       {| client := {| currentId := Js.succ (currentId (client w));
                       requestMap := requestMap (client w) |};
          allocated := allocated w; reasons := reasons w;
          dispatched := dispatched w; events := events w |}
     else
       {| client := {| currentId := Js.succ (currentId (client w));
                       requestMap := Map_set (Js.succ (currentId (client w)))
                                       (mkSource (allocated w)) (requestMap (client w)) |};
          allocated := S (allocated w); reasons := reasons w;
          dispatched := dispatched w;
          events := events w ++ [MapSet (Js.succ (currentId (client w)))
                                   (mkSource (allocated w))] |}).
Proof.
  intros Hset.
  unfold request_call, bind, ret, incr_currentId, modify_client, get_client.
  cbn. rewrite Hset. by destruct (truthy (prop (own options) "cancelToken")).
Qed.

Lemma step_on_registry_in_flight (w : World) (e : Event) :
  no_orphan e → registry_in_flight w → registry_in_flight (step_on w e).
Proof.
  intros He Hw. destruct e as [a|method url options]; cbn [step_on].
  - by apply step_registry_in_flight.
  - destruct (can_set options "cancelToken") eqn:Hset.
    + rewrite (request_call_set _ _ _ _ Hset). cbn zeta. cbn [snd].
      exact (step_registry_in_flight w (CallRequest method url (own options)) Hw).
    + destruct He as [He|He]; [congruence|].
      rewrite (request_call_refused _ _ _ _ Hset), He. exact Hw.
Qed.

(** X1: on every run of a client in which no call of [request] throws after
    it registered a source (the options object of each call takes the
    assignment of [cancelToken], or holds a token already), each entry of
    the registry belongs to a request that is still in flight and was
    dispatched with the token of the entry's source.  The hypothesis is
    needed: a call on an object that holds no token and refuses the
    assignment leaves an entry that belongs to no request. *)
Theorem registry_entries_in_flight (l : list Event) :
  Forall no_orphan l →
  registry_in_flight (run_on init l) ∧
  ∀ (method : Method) (url : string) (options : OptionsObject),
    can_set options "cancelToken" = false →
    truthy (prop (own options) "cancelToken") = false →
    ¬ registry_in_flight (run_on init [CallRequestOn method url options]).
Proof.
  intros Hl. split.
  - induction l as [|e l IH] using rev_ind.
    + intros k source Hin. by apply elem_of_nil in Hin.
    + apply Forall_app in Hl as [Hl He]. apply Forall_cons_1 in He as [He _].
      unfold run_on. rewrite foldl_app. apply step_on_registry_in_flight; [done|].
      by apply IH.
  - intros method url options Hset Htok Hinv.
    unfold run_on in Hinv. cbn [foldl step_on] in Hinv.
    rewrite (request_call_refused _ _ _ _ Hset), Htok in Hinv. cbn [snd] in Hinv.
    destruct (Hinv (Js.succ (currentId (client init))) (mkSource (allocated init)))
      as (p & d & Hp & _).
    + apply elem_of_Map_set.
    + cbn in Hp. by rewrite lookup_nil in Hp.
Qed.

End RegistryRuns.

(** ** Requests in flight and dispose *)

Section InFlight.

Lemma fresh_id (w : World) (n : nat) (q : Promise) (d : Dispatched) :
  ids_inv w n → Z.of_nat (S n) ≤ MAX_EXACT →
  dispatched w !! q = Some d →
  d_requestID d ≠ Js.succ (currentId (client w)).
Proof.
  intros [Hc Ha] Hn Hq Heq.
  assert (Hin : d_requestID d ∈ assigned w).
  { unfold assigned. apply list_elem_of_fmap. exists d. split; [done|].
    by eapply list_elem_of_lookup_2. }
  rewrite Ha in Hin. apply list_elem_of_fmap in Hin as (i & Hi & Hseq).
  apply elem_of_seq in Hseq. rewrite Heq, Hc, succ_nth_id in Hi.
  unfold nth_id in Hi. lia.
Qed.

Lemma distinct_ids (w : World) (n : nat) (p q : Promise) (d d' : Dispatched) :
  ids_inv w n → Z.of_nat n ≤ MAX_EXACT →
  dispatched w !! p = Some d → dispatched w !! q = Some d' →
  d_requestID d = d_requestID d' → p = q.
Proof.
  intros [_ Ha] Hn Hp Hq Heq.
  assert (Hnd : NoDup (assigned w)).
  { rewrite Ha, nth_id_exact by done. apply NoDup_fmap; [apply _|]. apply NoDup_seq. }
  eapply (NoDup_lookup _ _ _ _ Hnd); unfold assigned; rewrite list_lookup_fmap.
  - by rewrite Hp.
  - by rewrite Hq, Heq.
Qed.

Lemma step_tracked (w : World) (n : nat) (a : Action) (p : Promise) (k : Z)
    (t : CancelToken) :
  ids_inv w n →
  Z.of_nat (if is_request a then S n else n) ≤ MAX_EXACT →
  tracked w p k t → tracked (step w a) p k t.
Proof.
  intros Hinv Hn (d & Hp & Hk & Ht & Hreg).
  destruct a as [method url options|msg|msg|q answer]; cbn [step is_request] in *.
  - assert (Hne : k ≠ Js.succ (currentId (client w)))
      by (rewrite <- Hk; by eapply fresh_id).
    exists d. destruct (truthy (prop options "cancelToken")) eqn:H.
    + rewrite (request_supplied _ _ _ _ H). cbn.
      split; [by apply lookup_app_l_Some|]. done.
    + rewrite (request_created _ _ _ _ H). cbn.
      split; [by apply lookup_app_l_Some|]. repeat split; [done..|].
      intros Hd. rewrite Map_get_set_ne by done. auto.
  - rewrite dispose_world. by exists d.
  - by exists d.
  - destruct (dispatched w !! q) as [d'|] eqn:Hq;
      [destruct (d_settlement d') eqn:Hd'|].
    + unfold deliver. rewrite Hq, Hd'. by exists d.
    + destruct (deliver_in_flight w q d' answer Hq Hd') as [m Hm]. cbn zeta in Hm.
      rewrite Hm. destruct (decide (p = q)) as [->|Hpq].
      * rewrite Hq in Hp. injection Hp as ->.
        eexists. cbn. split; [by apply list_lookup_insert_eq, lookup_lt_Some with d|].
        cbn. done.
      * exists d. cbn. split; [by rewrite list_lookup_insert_ne|].
        repeat split; [done..|]. intros Hd.
        rewrite Map_get_delete_ne; [auto|].
        intros Heq. apply Hpq. eapply (distinct_ids w n); [done..|congruence].
    + unfold deliver. rewrite Hq. by exists d.
Qed.

Lemma request_calls_app (l1 l2 : list Action) :
  request_calls (l1 ++ l2) = (request_calls l1 + request_calls l2)%nat.
Proof. induction l1 as [|a l1 IH]; cbn; [done|]. rewrite IH. lia. Qed.

Lemma run_tracked (l1 l2 : list Action) (method : Method) (url : string)
    (options : Props) :
  truthy (prop options "cancelToken") = false →
  Z.of_nat (request_calls (l1 ++ CallRequest method url options :: l2)) ≤ MAX_EXACT →
  tracked (run init (l1 ++ CallRequest method url options :: l2))
    (length (dispatched (run init l1)))
    (Js.succ (currentId (client (run init l1))))
    (allocated (run init l1)).
Proof.
  intros H. induction l2 as [|a l2 IH] using rev_ind; intros Hn.
  - rewrite run_snoc. cbn [step]. rewrite (request_created _ _ _ _ H). cbn.
    eexists. split; [apply list_lookup_middle; reflexivity|]. cbn.
    repeat split; [apply config_token_created|]. intros _. apply Map_get_set_eq.
  - rewrite app_comm_cons, app_assoc, run_snoc.
    rewrite app_comm_cons, app_assoc, request_calls_snoc in Hn.
    eapply step_tracked; [apply run_ids_inv| |apply IH].
    + destruct (is_request a); lia.
    + destruct (is_request a); lia.
Qed.

(** X2: on a run of at most 2^53 requests, a request made without a token of
    its own and still in flight is rejected as cancelled once [dispose] is
    called, whatever the network answers afterwards; this is what the cleanup
    of [useHttp] and [useApi] relies on. *)
Theorem in_flight_cancelled_by_dispose (l1 l2 : list Action) (method : Method)
    (url : string) (options : Props) (msg : option string) (answer : TransportOutcome) :
  truthy (prop options "cancelToken") = false →
  Z.of_nat (request_calls (l1 ++ CallRequest method url options :: l2)) ≤ MAX_EXACT →
  let p := length (dispatched (run init l1)) in
  let w := run init (l1 ++ CallRequest method url options :: l2) in
  settlement w p = None →
  settlement (run w [CallDispose msg; Answer p answer]) p = Some cancelled.
Proof.
  intros H Hn p w Hs.
  destruct (run_tracked l1 l2 method url options H Hn) as (d & Hp & Hk & Ht & Hreg).
  fold p w in Hp, Hreg.
  assert (Hd : d_settlement d = None).
  { unfold settlement in Hs. rewrite Hp in Hs. exact Hs. }
  unfold run. cbn [foldl step].
  pose proof (dispose_world msg w) as Hw.
  set (w1 := (dispose msg w).2) in *.
  destruct (deliver_cancelled w1 p d (allocated (run init l1)) answer) as (Hc & _);
    try done.
  - by rewrite Hw.
  - rewrite Hw. cbn. apply cancel_all_is_Some. right.
    eexists. apply Map_get_elem_of. by apply Hreg.
Qed.

Lemma cancel_all_lookup_other (msg : option string) (m : RequestMap)
    (rs : gmap CancelToken Cancel) (t : CancelToken) :
  (∀ k source, (k, source) ∈ m → token source ≠ t) →
  cancel_all msg m rs !! t = rs !! t.
Proof.
  unfold cancel_all. revert rs.
  induction m as [|[k source] m IH]; intros rs Hm; cbn; [done|].
  rewrite IH.
  - unfold set_reason. destruct (rs !! token source); [done|].
    apply lookup_insert_ne. eapply Hm. apply elem_of_cons. by left.
  - intros k' s' Hin. eapply Hm. apply elem_of_cons. by right.
Qed.

Lemma settle_fst_world (requestID : Z) (o : TransportOutcome) (w w' : World) :
  (settle requestID o w).1 = (settle requestID o w').1.
Proof.
  destruct o as [resp|err].
  - rewrite !settle_fulfilled. by destruct (on_response resp) as [[v|e]|e].
  - by rewrite !settle_rejected.
Qed.

Lemma settlement_deliver (w : World) (p : Promise) (answer : TransportOutcome) :
  settlement (deliver p answer w).2 p =
    match dispatched w !! p with
    | Some d =>
        match d_settlement d with
        | Some s => Some s
        | None => Some (settle (d_requestID d)
                          (transport_outcome w (d_config d) answer) w).1
        end
    | None => None
    end.
Proof.
  destruct (dispatched w !! p) as [d|] eqn:Hp;
    [destruct (d_settlement d) eqn:Hd|].
  - unfold deliver. rewrite Hp, Hd. unfold settlement. cbn. by rewrite Hp.
  - by apply deliver_settlement.
  - unfold deliver. rewrite Hp. unfold settlement. cbn. by rewrite Hp.
Qed.

(** X3: [dispose] reaches the requests of the registry only.  A request whose
    token no source of the registry is over (a token the caller supplied),
    or that carries no token, settles after [dispose] exactly as it would
    have without it. *)
Theorem dispose_spares_unregistered (w : World) (p : Promise) (d : Dispatched)
    (msg : option string) (answer : TransportOutcome) :
  dispatched w !! p = Some d →
  (∀ t, config_token (d_config d) = Some t → ¬ registry_holds w t) →
  settlement (run w [CallDispose msg; Answer p answer]) p =
    settlement (run w [Answer p answer]) p.
Proof.
  intros Hp Hfree. unfold run. cbn [foldl step].
  rewrite !settlement_deliver.
  pose proof (dispose_world msg w) as Hw.
  set (w1 := (dispose msg w).2) in *.
  assert (Hd : dispatched w1 = dispatched w) by (by rewrite Hw).
  rewrite Hd, Hp. destruct (d_settlement d); [done|]. f_equal.
  rewrite (settle_fst_world _ _ w1 w). f_equal.
  unfold transport_outcome.
  destruct (config_token (d_config d)) as [t|] eqn:Ht; [|done].
  replace (reasons w1 !! t) with (reasons w !! t); [done|].
  rewrite Hw. cbn. symmetry. apply cancel_all_lookup_other.
  intros k [t'] Hin. cbn. intros ->. eapply Hfree; [done|]. by exists k.
Qed.

Lemma cancel_all_is_Some_inv (msg : option string) (m : RequestMap)
    (rs : gmap CancelToken Cancel) (t : CancelToken) :
  is_Some (cancel_all msg m rs !! t) →
  is_Some (rs !! t) ∨ (∃ k, (k, mkSource t) ∈ m).
Proof.
  unfold cancel_all. revert rs.
  induction m as [|[k [t']] m IH]; intros rs; cbn; [by left|].
  intros H. apply IH in H as [H|[k' H]].
  - unfold set_reason in H. cbn in H. destruct (rs !! t') eqn:E; [by left|].
    destruct (decide (t' = t)) as [->|Hne].
    + right. exists k. apply elem_of_cons. by left.
    + rewrite lookup_insert_ne in H by done. by left.
  - right. exists k'. apply elem_of_cons. by right.
Qed.

(** X4: the message given to [dispose] never reaches the caller of
    [request]: whatever the message, every request settles the same way
    (a cancelled one with the fixed text of [HttpError]). *)
Theorem dispose_message_dropped (w : World) (p : Promise) (msg msg' : option string)
    (answer : TransportOutcome) :
  settlement (run w [CallDispose msg; Answer p answer]) p =
    settlement (run w [CallDispose msg'; Answer p answer]) p.
Proof.
  unfold run. cbn [foldl step]. rewrite !settlement_deliver.
  rewrite !dispose_world. cbn [dispatched reasons].
  destruct (dispatched w !! p) as [d|]; [|done].
  destruct (d_settlement d); [done|]. f_equal.
  unfold transport_outcome. cbn [reasons].
  destruct (config_token (d_config d)) as [t|]; [|apply settle_fst_world].
  destruct (cancel_all msg (requestMap (client w)) (reasons w) !! t) as [c|] eqn:E;
    destruct (cancel_all msg' (requestMap (client w)) (reasons w) !! t) as [c'|] eqn:E'.
  - by rewrite !settle_rejected.
  - assert (is_Some (cancel_all msg' (requestMap (client w)) (reasons w) !! t)) as [? ?];
      [|congruence].
    apply cancel_all_is_Some, (cancel_all_is_Some_inv msg). by rewrite E.
  - assert (is_Some (cancel_all msg (requestMap (client w)) (reasons w) !! t)) as [? ?];
      [|congruence].
    apply cancel_all_is_Some, (cancel_all_is_Some_inv msg'). by rewrite E'.
  - apply settle_fst_world.
Qed.

(** X5: on a run of at most 2^53 requests, the identifier of a request that
    has settled is not a key of the registry, at any later time: the entry is
    removed at the settlement and no later request is given the identifier
    again. *)
Theorem completed_requests_unregistered (l : list Action) (p : Promise)
    (d : Dispatched) (s : Settlement) :
  Z.of_nat (request_calls l) ≤ MAX_EXACT →
  dispatched (run init l) !! p = Some d →
  d_settlement d = Some s →
  Map_get (d_requestID d) (requestMap (client (run init l))) = None.
Proof. intros Hn Hp Hs. by eapply (run_settled_absent l Hn). Qed.

End InFlight.

(** ** Bodies, options objects, get and post *)

Section Wrappers.

(** X6: every response body other than [null] that is not an object with a
    numeric [result] (strings, numbers, booleans, [undefined], arrays,
    objects whose [result] is absent or not a number) resolves the promise
    unchanged, after one removal of the registry entry. *)
Theorem non_enveloped_body_resolves (requestID : Z) (w : World) (body : JsValue)
    (st : Z) (text : string) :
  body ≠ JNull →
  (∀ (props : Props) (r : number),
     body = JObject props → props !! "result" ≠ Some (JNumber r)) →
  settle requestID (Fulfilled (mkResponse body st text)) w =
    (Resolved body, after_delete requestID w 1).
Proof.
  intros Hnull Hshape.
  apply (raw_body_resolves requestID w (mkResponse body st text)). cbn.
  apply isResponseObject_false. split; [done|].
  intros props ->. unfold prop.
  destruct (props !! "result") as [[| |b|n|s|items|q|t]|] eqn:E; try reflexivity.
  by destruct (Hshape props n eq_refl).
Qed.

(** X7: [request] leaves its token in the caller's options object, so a
    second call with the same object creates and registers nothing, leaves
    the object as it is, and is dispatched under the token of the first
    call: the two requests can only be cancelled together, through the
    source of the first. *)
Theorem reused_options_share_token (method method' : Method) (url url' : string)
    (options : Props) (w : World) :
  let r1 := request method url options w in
  let r2 := request method' url' r1.1.2 r1.2 in
  requestMap (client r2.2) = requestMap (client r1.2) ∧
  allocated r2.2 = allocated r1.2 ∧
  r2.1.2 = r1.1.2 ∧
  ∃ d1 d2 : Dispatched,
    dispatched r2.2 !! r1.1.1 = Some d1 ∧
    dispatched r2.2 !! r2.1.1 = Some d2 ∧
    r2.1.1 = S r1.1.1 ∧
    config_token (d_config d2) = config_token (d_config d1).
Proof.
  cbn zeta.
  pose proof (request_leaves_token method url options w) as Htok.
  rewrite (request_supplied _ _ _ _ Htok). cbn zeta.
  set (r1 := request method url options w) in *.
  assert (Hid : <["cancelToken" := prop r1.1.2 "cancelToken"]> r1.1.2 = r1.1.2).
  { apply insert_id. unfold prop in *.
    destruct (r1.1.2 !! "cancelToken"); [done | discriminate]. }
  rewrite Hid. cbn. repeat split.
  assert (H1 : ∃ d1, dispatched r1.2 !! r1.1.1 = Some d1 ∧ length (dispatched r1.2) = S r1.1.1
                     ∧ config_token (d_config d1) = config_token r1.1.2).
  { subst r1. destruct (truthy (prop options "cancelToken")) eqn:H.
    - rewrite (request_supplied _ _ _ _ H). cbn.
      eexists. split; [apply list_lookup_middle; reflexivity|].
      split; [by rewrite length_app, Nat.add_1_r|]. cbn.
      unfold config_token, prop, spread.
      by rewrite (lookup_union_l' _ _ "cancelToken") by (by rewrite lookup_insert_eq).
    - rewrite (request_created _ _ _ _ H). cbn.
      eexists. split; [apply list_lookup_middle; reflexivity|].
      split; [by rewrite length_app, Nat.add_1_r|]. cbn.
      unfold config_token, prop, spread.
      by rewrite (lookup_union_l' _ _ "cancelToken") by (by rewrite lookup_insert_eq). }
  destruct H1 as (d1 & Hd1 & Hlen & Ht1).
  eexists d1, _. split; [by apply lookup_app_l_Some|].
  split; [apply list_lookup_middle; reflexivity|]. split; [done|]. cbn.
  rewrite Ht1. unfold config_token, prop, spread.
  unfold prop in Htok. destruct (r1.1.2 !! "cancelToken") as [v|] eqn:E; [|discriminate].
  by rewrite (lookup_union_Some_l _ _ _ v).
Qed.

Lemma lookup_spread (base over : Props) (key : string) :
  spread base over !! key =
    match over !! key with Some v => Some v | None => base !! key end.
Proof.
  unfold spread. rewrite lookup_union.
  destruct (over !! key), (base !! key); reflexivity.
Qed.

Lemma request_method_url (method : Method) (url : string) (options : Props)
    (w : World) :
  ∃ d : Dispatched,
    dispatched (request method url options w).2 !! (request method url options w).1.1
      = Some d ∧
    d_config d !! "method" = Some (default (JString method) (options !! "method")) ∧
    d_config d !! "url" = Some (default (JString url) (options !! "url")).
Proof.
  destruct (truthy (prop options "cancelToken")) eqn:H;
    [rewrite (request_supplied _ _ _ _ H) | rewrite (request_created _ _ _ _ H)];
    cbn; (eexists; split; [apply list_lookup_middle; reflexivity|]); cbn.
  all: rewrite !lookup_spread, !lookup_insert_ne by done.
  all: split; destruct (options !! _); reflexivity.
Qed.

Lemma request_no_options (method : Method) (url : string) (w : World) :
  ∃ d : Dispatched,
    dispatched (request method url ∅ w).2 !! (request method url ∅ w).1.1 = Some d ∧
    d_config d =
      <["method" := JString method]>
        (<["url" := JString url]>
           (<["timeout" := JNumber 60000%float]>
              (<["cancelToken" := JCancelToken (allocated w)]> ∅))) ∧
    Map_get (d_requestID d) (requestMap (client (request method url ∅ w).2))
      = Some (mkSource (allocated w)).
Proof.
  assert (H : truthy (prop (∅ : Props) "cancelToken") = false) by reflexivity.
  rewrite (request_created _ _ _ _ H). cbn.
  eexists. split; [apply list_lookup_middle; reflexivity|]. cbn.
  split; [|apply Map_get_set_eq].
  apply map_eq. intros key. rewrite lookup_spread. unfold defaults.
  rewrite !(lookup_insert _ _ key), lookup_empty.
  repeat case_decide; subst; try done.
Qed.

(** X8: [get] and [post] fix the method only as a default: a [method] (or a
    [url]) in the options wins.  With the options omitted the request is
    dispatched with exactly the method, the url, a timeout of 60000 and a new
    token, which is registered under the new identifier. *)
Theorem get_post_dispatch (url : string) (options : option Props) (w : World) :
  let o := default ∅ options in
  (∃ d : Dispatched,
     dispatched (get url options w).2 !! (get url options w).1.1 = Some d ∧
     d_config d !! "method" = Some (default (JString "GET") (o !! "method")) ∧
     d_config d !! "url" = Some (default (JString url) (o !! "url")) ∧
     (options = None →
      d_config d =
        <["method" := JString "GET"]>
          (<["url" := JString url]>
             (<["timeout" := JNumber 60000%float]>
                (<["cancelToken" := JCancelToken (allocated w)]> ∅))) ∧
      Map_get (d_requestID d) (requestMap (client (get url options w).2))
        = Some (mkSource (allocated w)))) ∧
  (∃ d : Dispatched,
     dispatched (post url options w).2 !! (post url options w).1.1 = Some d ∧
     d_config d !! "method" = Some (default (JString "POST") (o !! "method")) ∧
     d_config d !! "url" = Some (default (JString url) (o !! "url")) ∧
     (options = None →
      d_config d =
        <["method" := JString "POST"]>
          (<["url" := JString url]>
             (<["timeout" := JNumber 60000%float]>
                (<["cancelToken" := JCancelToken (allocated w)]> ∅))) ∧
      Map_get (d_requestID d) (requestMap (client (post url options w).2))
        = Some (mkSource (allocated w)))).
Proof.
  cbn zeta. unfold get, post. split.
  - destruct (request_method_url "GET" url (default ∅ options) w) as (d & Hd & Hm & Hu).
    exists d. split; [done|]. split; [done|]. split; [done|].
    intros ->. cbn [default] in *.
    destruct (request_no_options "GET" url w) as (d' & Hd' & Hc & Hr).
    rewrite Hd in Hd'. injection Hd' as <-. done.
  - destruct (request_method_url "POST" url (default ∅ options) w) as (d & Hd & Hm & Hu).
    exists d. split; [done|]. split; [done|]. split; [done|].
    intros ->. cbn [default] in *.
    destruct (request_no_options "POST" url w) as (d' & Hd' & Hc & Hr).
    rewrite Hd in Hd'. injection Hd' as <-. done.
Qed.

End Wrappers.

(** ** useToggle *)

Section Toggle.

Lemma toggle_step_pending (h : StateHook bool) (e : ToggleEvent) :
  memoizedState (updateState (toggle_step h e)) =
    match e with
    | CallToggle => negb (memoizedState (updateState h))
    | Rerender => memoizedState (updateState h)
    end.
Proof.
  destruct e; cbn; [|done].
  by rewrite foldl_app.
Qed.

Lemma toggle_calls_snoc (l : list ToggleEvent) (e : ToggleEvent) :
  toggle_calls (l ++ [e]) =
    (match e with CallToggle => 1 | Rerender => 0 end + toggle_calls l)%nat.
Proof. induction l as [|[] l IH]; cbn; [by destruct e|..]; rewrite IH; lia. Qed.

(** X9: however calls of [toggle] and re-renders are interleaved, the value
    the next render returns is the default value inverted once per call:
    the default when the number of calls is even, its negation when odd.  No
    call is lost when several are made between two renders. *)
Theorem toggle_parity (defaultValue : option bool) (l : list ToggleEvent) :
  (useToggle (foldl toggle_step (useToggle_mount defaultValue) l)).1 =
    xorb (default false defaultValue) (Nat.odd (toggle_calls l)).
Proof.
  unfold useToggle. cbn [fst].
  induction l as [|e l IH] using rev_ind.
  - cbn. by rewrite xorb_false_r.
  - rewrite foldl_app. cbn [foldl]. rewrite toggle_step_pending, IH, toggle_calls_snoc.
    destruct e; cbn [Nat.add]; [|done].
    rewrite Nat.odd_succ, <- Nat.negb_odd.
    by destruct (default false defaultValue), (Nat.odd (toggle_calls l)).
Qed.

End Toggle.

(** ** useLocalStorage *)

Section LocalStorage.
Variable key : string.

(** X10: [setItem] with a string writes that string under the hook's key and
    touches no other item; the next render returns it; and a hook mounted
    afterwards on the same key starts from it, unless the string is empty,
    in which case it starts from its default value. *)
Theorem setItem_string_round_trip (s defaultValue : string) (h : LocalStorageHook) :
  let h' := setItem key (NewState s) h in
  localStorage h' !! key = Some s ∧
  (∀ k : string, k ≠ key → localStorage h' !! k = localStorage h !! k) ∧
  memoizedState (ls_state (useLocalStorage h')) = s ∧
  memoizedState (ls_state (useLocalStorage_mount key defaultValue (localStorage h'))) =
    (if String.eqb s "" then defaultValue else s).
Proof.
  cbn. rewrite lookup_insert_eq. repeat split.
  - intros k Hk. by rewrite lookup_insert_ne.
  - by rewrite foldl_app.
Qed.

Lemma setItem_updaters_state (fs : list (string → string)) (h : LocalStorageHook) :
  memoizedState (ls_state (foldl (λ h f, setItem key (Updater f) h) h fs))
    = memoizedState (ls_state h) ∧
  queue (ls_state (foldl (λ h f, setItem key (Updater f) h) h fs))
    = queue (ls_state h) ++ (Updater <$> fs).
Proof.
  revert h. induction fs as [|f fs IH]; intros h; cbn.
  - by rewrite app_nil_r.
  - destruct (IH (setItem key (Updater f) h)) as [-> ->]. cbn.
    by rewrite <- app_assoc.
Qed.

(** X11: when [setItem] is called with functions several times between two
    renders, the state composes them (each applied to the result of the one
    before), but the item written to the storage is the last function
    applied to the value of the last render: the earlier calls are lost in
    the storage. *)
Theorem setItem_updaters_diverge (fs : list (string → string)) (f : string → string)
    (h : LocalStorageHook) :
  let h0 := useLocalStorage h in
  let value := memoizedState (ls_state h0) in
  let h' := foldl (λ h g, setItem key (Updater g) h) h0 (fs ++ [f]) in
  memoizedState (ls_state (useLocalStorage h')) = f (foldl (λ v g, g v) value fs) ∧
  localStorage h' !! key = Some (f value).
Proof.
  cbn zeta. rewrite foldl_app. cbn [foldl].
  set (h1 := foldl _ (useLocalStorage h) fs).
  destruct (setItem_updaters_state fs (useLocalStorage h)) as [Hm Hq]. fold h1 in Hm, Hq.
  split.
  - cbn. rewrite Hm, Hq, foldl_app. cbn.
    f_equal. clear. induction fs as [|g fs IH] using rev_ind; [done|].
    by rewrite fmap_app, !foldl_app, IH.
  - cbn. by rewrite lookup_insert_eq, Hm.
Qed.

(** X12: a storage event for another key, or with no key (the storage was
    cleared), leaves the hook as it is; an event for the hook's key makes the
    next render return the new value, and the empty string (not the default
    value) when the item was removed; the listener never writes to the
    storage. *)
Theorem storage_event (event : StorageEvent) (h : LocalStorageHook) :
  localStorage (onStorageChange key event h) = localStorage h ∧
  (event_key event ≠ Some key → onStorageChange key event h = h) ∧
  (event_key event = Some key →
   memoizedState (ls_state (useLocalStorage (onStorageChange key event h))) =
     default "" (newValue event)).
Proof.
  unfold onStorageChange. split; [by case_decide|]. split.
  - intros Hk. by case_decide.
  - intros Hk. case_decide; [|done]. cbn. rewrite foldl_app. cbn.
    destruct (newValue event) as [s|]; cbn; [|done].
    destruct (String.eqb s "") eqn:E; [|done]. by apply String.eqb_eq in E.
Qed.

End LocalStorage.

(** ** The storage listener *)

Section Listener.

Lemma storage_effect_one (f : Listener) (c : StorageComponent) :
  match sc_cleanup c with
  | Some g => sc_listeners c = [g] ∧ g ≠ f
  | None => sc_listeners c = []
  end →
  sc_listeners (storage_effect f c) = [f].
Proof.
  unfold storage_effect. cbn. destruct (sc_cleanup c) as [g|].
  - intros [-> Hne]. unfold removeEventListener.
    rewrite filter_cons_False by (intros H; by apply H). rewrite filter_nil.
    unfold addEventListener. rewrite decide_False; [done|]. by intros ?%elem_of_nil.
  - intros ->. unfold addEventListener. rewrite decide_False; [done|].
    by intros ?%elem_of_nil.
Qed.

Lemma sc_step_one_listener (c : StorageComponent) (e : StorageAction) :
  one_listener c → one_listener (sc_step c e).
Proof.
  unfold one_listener. destruct e as [key|newVal|event|]; cbn [sc_step]; try done.
  - unfold sc_render. destruct (sc_cleanup c) as [g|] eqn:Hc; cbv beta iota;
      [|by rewrite Hc].
    intros (Hl & Hk & Hr). cbn [sc_cleanup storage_effect].
    rewrite storage_effect_one.
    + cbn. repeat split. lia.
    + cbn. split; [done|]. intros ->. cbn in Hr. lia.
  - unfold sc_unmount. cbn. destruct (sc_cleanup c) as [g|]; [|done].
    intros (-> & _). unfold removeEventListener.
    by rewrite filter_cons_False by (intros H; by apply H).
Qed.

(** X13: although the effect has no dependency list and so subscribes again
    after every render, the listeners do not pile up: at any time the window
    holds exactly the listener of the last render, with that render's key,
    and none after the unmount.  So a storage event for the current key
    queues exactly one state update while the component is mounted, and does
    not reach the hook once it is unmounted. *)
Theorem storage_listener_unique (key defaultValue : string) (storage : Storage)
    (l : list StorageAction) (event : StorageEvent) :
  let c := foldl sc_step (sc_mount key defaultValue storage) l in
  one_listener c ∧
  sc_hook (sc_dispatch event c) =
    match sc_cleanup c with
    | Some _ => onStorageChange (sc_key c) event (sc_hook c)
    | None => sc_hook c
    end ∧
  (is_Some (sc_cleanup c) → event_key event = Some (sc_key c) →
   queue (ls_state (sc_hook (sc_dispatch event c))) =
     queue (ls_state (sc_hook c)) ++ [NewState (or_else (newValue event) "")]).
Proof.
  cbn zeta.
  assert (Hone : one_listener (foldl sc_step (sc_mount key defaultValue storage) l)).
  { induction l as [|e l IH] using rev_ind.
    - cbn. repeat split. lia.
    - rewrite foldl_app. by apply sc_step_one_listener. }
  set (c := foldl sc_step _ l) in *.
  assert (Hd : sc_hook (sc_dispatch event c) =
               match sc_cleanup c with
               | Some _ => onStorageChange (sc_key c) event (sc_hook c)
               | None => sc_hook c
               end).
  { unfold one_listener in Hone. unfold sc_dispatch. cbn.
    destruct (sc_cleanup c) as [f|].
    - destruct Hone as (-> & <- & _). done.
    - by rewrite Hone. }
  split; [done|]. split; [done|].
  intros [f Hf] Hk. rewrite Hd, Hf. unfold onStorageChange.
  by rewrite decide_True.
Qed.

End Listener.

(** ** useApi *)

Section UseApi.

Lemma invoke_memo (cb : Callback) (a : Api) :
  memoizedCallback (invoke cb a) = memoizedCallback a ∧
  effect_deps (invoke cb a) = effect_deps a ∧
  renders (invoke cb a) = renders a ∧
  unmounted (invoke cb a) = unmounted a.
Proof. unfold invoke, heap_set, set_world. cbn. by destruct (cb_options cb). Qed.

Lemma api_answer_memo (p : Promise) (answer : TransportOutcome) (a : Api) :
  memoizedCallback (api_answer p answer a) = memoizedCallback a ∧
  effect_deps (api_answer p answer a) = effect_deps a ∧
  renders (api_answer p answer a) = renders a ∧
  unmounted (api_answer p answer a) = unmounted a.
Proof.
  unfold api_answer. destruct (settlement (api_world a) p);
    [done|]. by destruct (settlement _ p) as [[]|].
Qed.

Lemma useApi_memo (args : ApiArgs) (a : Api) :
  unmounted a = false →
  ∃ cb, memoizedCallback (useApi args a) = Some cb ∧
        effect_deps (useApi args a) =
          Some (default false (arg_immediately args), cb_id cb) ∧
        renders (useApi args a) = S (renders a) ∧
        unmounted (useApi args a) = false ∧
        (cb = mkCallback (renders a) (arg_method args) (arg_url args)
                match arg_options args with
                | Some r => CallerObject r
                | None => DefaultObject (renders a)
                end
         ∨ (memoizedCallback a = Some cb ∧
            cb_method cb = arg_method args ∧ cb_url cb = arg_url args ∧
            cb_options cb = match arg_options args with
                            | Some r => CallerObject r
                            | None => DefaultObject (renders a)
                            end)).
Proof.
  intros Hu. unfold useApi. rewrite Hu. cbn zeta.
  set (fresh := mkCallback _ _ _ _).
  set (cb := match memoizedCallback a with Some _ => _ | None => _ end).
  assert (Hcb : cb = fresh ∨ (memoizedCallback a = Some cb ∧
            cb_method cb = arg_method args ∧ cb_url cb = arg_url args ∧
            cb_options cb = cb_options fresh)).
  { subst cb. destruct (memoizedCallback a) as [cb0|]; [|by left].
    case_decide as Hd; [right | by left].
    destruct Hd as (? & ? & ?). done. }
  exists cb.
  assert (Hrest : ∀ a' : Api,
    memoizedCallback a' = Some cb →
    effect_deps a' = Some (default false (arg_immediately args), cb_id cb) →
    renders a' = S (renders a) → unmounted a' = false →
    let a'' := if default false (arg_immediately args) then invoke cb a' else a' in
    memoizedCallback a'' = Some cb ∧
    effect_deps a'' = Some (default false (arg_immediately args), cb_id cb) ∧
    renders a'' = S (renders a) ∧ unmounted a'' = false).
  { intros a' ? ? ? ?. cbn zeta.
    destruct (default false (arg_immediately args)); [|done].
    destruct (invoke_memo cb a') as (-> & -> & -> & ->). done. }
  destruct (effect_deps a) as [deps|]; [case_decide|]; [by cbn|..].
  all: match goal with
       | |- context [if _ then invoke _ ?x else _] =>
           destruct (Hrest x eq_refl eq_refl eq_refl eq_refl) as (? & ? & ? & ?)
       end; done.
Qed.

Lemma api_step_wf (a : Api) (e : ApiEvent) : api_wf a → api_wf (api_step a e).
Proof.
  intros [Hcb Hdeps]. destruct e as [args| |p answer|]; cbn [api_step].
  - destruct (unmounted a) eqn:Hu.
    { unfold useApi. rewrite Hu. split; [exact Hcb|].
      intros deps Hd. by destruct (Hdeps deps Hd). }
    destruct (useApi_memo args a Hu) as (cb & Hm & He & Hr & Hun & Hcase).
    split.
    + intros cb' Hcb'. rewrite Hm in Hcb'. injection Hcb' as <-. rewrite Hr.
      destruct Hcase as [->|(Hold & _ & _ & Ho)].
      * cbn. split; [lia|]. destruct (arg_options args); [done|].
        intros k [= <-]. lia.
      * destruct (Hcb cb Hold) as [? Hk]. split; [lia|].
        intros k Hk'. specialize (Hk k Hk'). lia.
    + intros deps Hd. rewrite He in Hd. injection Hd as <-.
      split; [done|]. by exists cb.
  - destruct (memoizedCallback a) as [cb|] eqn:Hm;
      [|unfold api_wf; rewrite Hm; exact (conj Hcb Hdeps)].
    destruct (invoke_memo cb a) as (Hm' & He' & Hr' & Hu').
    unfold api_wf. rewrite Hm', He', Hr', Hu', Hm. exact (conj Hcb Hdeps).
  - destruct (api_answer_memo p answer a) as (Hm' & He' & Hr' & Hu').
    unfold api_wf. rewrite Hm', He', Hr', Hu'. exact (conj Hcb Hdeps).
  - unfold api_unmount. split; cbn; [|done].
    by destruct (effect_deps a).
Qed.

Lemma api_run_wf (objects : gmap nat Props) (l : list ApiEvent) :
  api_wf (api_run (api_initial objects) l).
Proof.
  induction l as [|e l IH] using rev_ind; [by split|].
  unfold api_run. rewrite foldl_app. by apply api_step_wf.
Qed.

Lemma useApi_default_options (args : ApiArgs) (a : Api) :
  api_wf a → unmounted a = false → arg_options args = None →
  useApi args a =
    let immediately := default false (arg_immediately args) in
    let cb := mkCallback (renders a) (arg_method args) (arg_url args)
                (DefaultObject (renders a)) in
    let a1 :=
      {| api_world := api_world a;
         caller_objects := caller_objects a;
         default_objects := <[renders a := ∅]> (default_objects a);
         loading := loading a; api_data := api_data a; api_err := api_err a;
         renders := S (renders a); memoizedCallback := Some cb;
         effect_deps := Some (immediately, renders a);
         unmounted := false |} in
    let a2 := match effect_deps a with Some _ => api_cleanup a1 | None => a1 end in
    if immediately then invoke cb a2 else a2.
Proof.
  intros [Hcb Hdeps] Hu Ho. unfold useApi. rewrite Hu, Ho. cbn zeta.
  assert (Hfresh : match memoizedCallback a with
                   | Some cb =>
                       if decide (cb_method cb = arg_method args ∧
                                  cb_url cb = arg_url args ∧
                                  cb_options cb = DefaultObject (renders a))
                       then cb
                       else mkCallback (renders a) (arg_method args) (arg_url args)
                              (DefaultObject (renders a))
                   | None => mkCallback (renders a) (arg_method args) (arg_url args)
                               (DefaultObject (renders a))
                   end = mkCallback (renders a) (arg_method args) (arg_url args)
                           (DefaultObject (renders a))).
  { destruct (memoizedCallback a) as [cb|] eqn:Hm; [|done].
    case_decide as Hd; [|done]. destruct Hd as (_ & _ & Hopt).
    destruct (Hcb cb eq_refl) as [_ Hk]. specialize (Hk _ Hopt). lia. }
  rewrite Hfresh. cbn [cb_id].
  destruct (effect_deps a) as [deps|] eqn:He; [|done].
  case_decide as Hd; [|done]. exfalso.
  destruct (Hdeps deps eq_refl) as (_ & cb & Hm & Hid).
  destruct (Hcb cb Hm) as [Hlt _]. rewrite Hd in Hid. cbn in Hid. lia.
Qed.

Lemma request_reasons (method : Method) (url : string) (options : Props) (w : World) :
  reasons (request method url options w).2 = reasons w.
Proof.
  destruct (truthy (prop options "cancelToken")) eqn:H;
    [by rewrite (request_supplied _ _ _ _ H) | by rewrite (request_created _ _ _ _ H)].
Qed.

(** X14: when [useApi] is used without an options argument, every re-render of
    the component runs the cleanup of the effect, because the default [{}] is
    a new object in every render and with it the memoized callback is a new
    function: [dispose] is called, every request of the registry is
    cancelled, and with [immediately] a new request is dispatched. *)
Theorem rerender_without_options_disposes (objects : gmap nat Props)
    (l : list ApiEvent) (args : ApiArgs) :
  arg_options args = None →
  let a := api_run (api_initial objects) l in
  is_Some (effect_deps a) →
  let a' := useApi args a in
  let w1 := (cleanup (api_world a)).2 in
  memoizedCallback a' ≠ memoizedCallback a ∧
  api_world a' =
    (if default false (arg_immediately args)
     then (request (arg_method args) (arg_url args) ∅ w1).2
     else w1) ∧
  ∀ t, registry_holds (api_world a) t → is_Some (reasons (api_world a') !! t).
Proof.
  intros Ho a [deps He] a' w1.
  pose proof (api_run_wf objects l) as Hwf. fold a in Hwf.
  assert (Hu : unmounted a = false) by (by destruct (proj2 Hwf deps He)).
  subst a'. rewrite (useApi_default_options args a Hwf Hu Ho). cbn zeta.
  rewrite He.
  set (cb := mkCallback _ _ _ _).
  set (a2 := api_cleanup _).
  assert (Hw : api_world (if default false (arg_immediately args)
                          then invoke cb a2 else a2) =
               if default false (arg_immediately args)
               then (request (arg_method args) (arg_url args) ∅ w1).2 else w1).
  { destruct (default false (arg_immediately args)); [|done].
    unfold invoke, heap_get. cbn. by rewrite lookup_insert_eq. }
  assert (Hm : memoizedCallback (if default false (arg_immediately args)
                                 then invoke cb a2 else a2) = Some cb).
  { destruct (default false (arg_immediately args)); [|done].
    by destruct (invoke_memo cb a2) as (-> & _). }
  split; [|split].
  - destruct (proj2 Hwf deps He) as (_ & cb0 & Hm0 & _).
    destruct (proj1 Hwf cb0 Hm0) as [Hlt _]. rewrite Hm, Hm0.
    intros [= <-]. cbn in Hlt. lia.
  - exact Hw.
  - intros t [k Hk]. rewrite Hw.
    assert (Hr : is_Some (reasons w1 !! t)).
    { subst w1. unfold cleanup. rewrite dispose_world. cbn.
      apply cancel_all_is_Some. right. by exists k. }
    destruct (default false (arg_immediately args)); [|done].
    by rewrite request_reasons.
Qed.

End UseApi.

Section UseApiRequests.

Lemma on_settled_fields (s : Settlement) (a : Api) :
  api_world (on_settled s a) = api_world a ∧
  loading (on_settled s a) = false ∧
  api_data (on_settled s a) = match s with Resolved v => v | RejectedWith _ => JNull end ∧
  api_err (on_settled s a) = match s with Resolved _ => None | RejectedWith e => Some e end.
Proof. by destruct s. Qed.

Lemma api_answer_in_flight (p : Promise) (answer : TransportOutcome) (a : Api)
    (d : Dispatched) :
  dispatched (api_world a) !! p = Some d → d_settlement d = None →
  let s := (settle (d_requestID d)
              (transport_outcome (api_world a) (d_config d) answer) (api_world a)).1 in
  api_answer p answer a =
    on_settled s (set_world (deliver p answer (api_world a)).2 a) ∧
  settlement (deliver p answer (api_world a)).2 p = Some s.
Proof.
  intros Hp Hd. cbn zeta.
  pose proof (deliver_settlement (api_world a) p d answer Hp Hd) as Hs.
  split; [|done]. unfold api_answer. rewrite Hs.
  unfold settlement at 1. by rewrite Hp; cbn; rewrite Hd.
Qed.

(** X16: the callback keeps no order among its requests.  With two requests
    in flight, the answer to the first sets [loading] to false while the
    second is still in flight, and whichever is answered last decides [data]
    and [err], whatever the other one returned. *)
Theorem last_answer_wins (p1 p2 : Promise) (d1 d2 : Dispatched)
    (answer1 answer2 : TransportOutcome) (a : Api) :
  p1 ≠ p2 →
  dispatched (api_world a) !! p1 = Some d1 → d_settlement d1 = None →
  dispatched (api_world a) !! p2 = Some d2 → d_settlement d2 = None →
  let a1 := api_answer p1 answer1 a in
  let a2 := api_answer p2 answer2 a1 in
  (loading a1 = false ∧ settlement (api_world a1) p2 = None) ∧
  (loading a2, api_data a2, api_err a2) =
    (loading (api_answer p2 answer2 a), api_data (api_answer p2 answer2 a),
     api_err (api_answer p2 answer2 a)).
Proof.
  intros Hne Hp1 Hd1 Hp2 Hd2. cbn zeta.
  destruct (api_answer_in_flight p1 answer1 a d1 Hp1 Hd1) as [Ha1 Hs1].
  destruct (deliver_in_flight (api_world a) p1 d1 answer1 Hp1 Hd1) as [n Hw1].
  cbn zeta in Hw1.
  set (a1 := api_answer p1 answer1 a) in *.
  assert (Hw : api_world a1 = (deliver p1 answer1 (api_world a)).2).
  { rewrite Ha1. by rewrite (proj1 (on_settled_fields _ _)). }
  assert (Hp2' : dispatched (api_world a1) !! p2 = Some d2).
  { rewrite Hw, Hw1. cbn. by rewrite list_lookup_insert_ne. }
  assert (Hr : reasons (api_world a1) = reasons (api_world a)).
  { by rewrite Hw, Hw1. }
  split; [split|].
  - rewrite Ha1. apply on_settled_fields.
  - unfold settlement. by rewrite Hp2'; cbn; rewrite Hd2.
  - destruct (api_answer_in_flight p2 answer2 a1 d2 Hp2' Hd2) as [-> _].
    destruct (api_answer_in_flight p2 answer2 a d2 Hp2 Hd2) as [-> _].
    rewrite (settle_fst_world _ _ (api_world a1) (api_world a)).
    replace (transport_outcome (api_world a1) (d_config d2) answer2)
      with (transport_outcome (api_world a) (d_config d2) answer2)
      by (unfold transport_outcome; by rewrite Hr).
    set (s := (settle _ _ _).1).
    destruct (on_settled_fields s (set_world (deliver p2 answer2 (api_world a1)).2 a1))
      as (_ & -> & -> & ->).
    destruct (on_settled_fields s (set_world (deliver p2 answer2 (api_world a)).2 a))
      as (_ & -> & -> & ->).
    done.
Qed.

End UseApiRequests.

Section UseApiRenders.

Lemma cleanup_dispatched (w : World) :
  dispatched (cleanup w).2 = dispatched w ∧
  client (cleanup w).2 = client w ∧
  allocated (cleanup w).2 = allocated w.
Proof. unfold cleanup. by rewrite dispose_world. Qed.

Lemma invoke_world (cb : Callback) (a : Api) :
  api_world (invoke cb a) =
    (request (cb_method cb) (cb_url cb) (heap_get (cb_options cb) a) (api_world a)).2 ∧
  loading (invoke cb a) = true.
Proof. unfold invoke. by destruct (cb_options cb). Qed.

(** X17: without an options argument a request cannot outlive the next
    render.  From any state of a mounted component: render, call the
    callback, render again (a call made while [loading] is false asks for it
    by [setLoading(true)]) and the request is rejected as cancelled whatever the network answers;
    the hook ends with [loading] false, [data] null and the cancellation as
    [err]. *)
Theorem request_cancelled_by_rerender (objects : gmap nat Props) (l : list ApiEvent)
    (args args' : ApiArgs) (answer : TransportOutcome) :
  arg_options args = None → arg_options args' = None →
  default false (arg_immediately args) = false →
  default false (arg_immediately args') = false →
  let a0 := api_run (api_initial objects) l in
  unmounted a0 = false →
  let p := length (dispatched (api_world a0)) in
  let a := api_run a0 [ApiRender args; ApiInvoke; ApiRender args'; ApiAnswer p answer] in
  settlement (api_world a) p = Some cancelled ∧
  loading a = false ∧ api_data a = JNull ∧
  api_err a = Some (ThrownHttpError (mkHttpError "请求被取消" JUndefined)).
Proof.
  intros Ho Ho' Hi Hi' a0 Hu p a.
  pose proof (api_run_wf objects l) as Hwf0. fold a0 in Hwf0.
  (* first render *)
  pose proof (api_step_wf a0 (ApiRender args) Hwf0) as Hwf1. cbn [api_step] in Hwf1.
  pose proof (useApi_default_options args a0 Hwf0 Hu Ho) as H1.
  cbn zeta in H1. rewrite Hi in H1.
  set (cb := mkCallback (renders a0) (arg_method args) (arg_url args)
               (DefaultObject (renders a0))) in *.
  set (a1 := useApi args a0) in *.
  assert (Hm1 : memoizedCallback a1 = Some cb) by (rewrite H1; by destruct (effect_deps a0)).
  assert (He1 : is_Some (effect_deps a1)) by (rewrite H1; by destruct (effect_deps a0)).
  assert (Hu1 : unmounted a1 = false) by (rewrite H1; by destruct (effect_deps a0)).
  assert (Hobj : heap_get (DefaultObject (renders a0)) a1 = ∅).
  { rewrite H1. unfold heap_get. destruct (effect_deps a0); cbn; by rewrite lookup_insert_eq. }
  assert (Hd1 : dispatched (api_world a1) = dispatched (api_world a0)).
  { rewrite H1. destruct (effect_deps a0); [|done]. cbn. apply cleanup_dispatched. }
  (* the call *)
  pose proof (api_step_wf a1 ApiInvoke Hwf1) as Hwf2. cbn [api_step] in Hwf2.
  rewrite Hm1 in Hwf2.
  set (a2 := invoke cb a1) in *.
  destruct (invoke_memo cb a1) as (Hm2 & He2 & _ & Hu2). fold a2 in Hm2, He2, Hu2.
  assert (Hw2 : api_world a2 =
                  (request (arg_method args) (arg_url args) ∅ (api_world a1)).2).
  { subst a2. rewrite (proj1 (invoke_world cb a1)). cbn [cb_method cb_url cb_options cb].
    by rewrite Hobj. }
  assert (Hc : truthy (prop (∅ : Props) "cancelToken") = false) by reflexivity.
  rewrite (request_created _ _ _ _ Hc) in Hw2. cbn [snd] in Hw2. cbn zeta in Hw2.
  (* second render *)
  assert (H3 : api_world (useApi args' a2) = (cleanup (api_world a2)).2).
  { rewrite (useApi_default_options args' a2 Hwf2) by (done || congruence).
    cbn zeta. rewrite Hi'. rewrite He2. by destruct He1 as [? ->]. }
  pose proof (api_step_wf a2 (ApiRender args') Hwf2) as Hwf3. cbn [api_step] in Hwf3.
  set (a3 := useApi args' a2) in *.
  (* the answer *)
  subst a. unfold api_run. cbn [foldl api_step]. fold a1. rewrite Hm1. fold a2 a3.
  set (d := mkDispatched (Js.succ (currentId (client (api_world a1))))
              (spread (defaults (arg_method args) (arg_url args))
                 (<["cancelToken" := JCancelToken (allocated (api_world a1))]> ∅))
              None).
  assert (Hp : dispatched (api_world a3) !! p = Some d).
  { rewrite H3. rewrite (proj1 (cleanup_dispatched _)), Hw2. cbn [dispatched].
    subst p. rewrite <- Hd1. by apply list_lookup_middle. }
  assert (Hr : is_Some (reasons (api_world a3) !! allocated (api_world a1))).
  { rewrite H3, Hw2. unfold cleanup. rewrite dispose_world.
    cbn [reasons client requestMap].
    apply cancel_all_is_Some. right.
    exists (Js.succ (currentId (client (api_world a1)))). apply elem_of_Map_set. }
  destruct (api_answer_in_flight p answer a3 d Hp eq_refl) as [Ha Hs].
  assert (Hcan : (settle (d_requestID d)
                    (transport_outcome (api_world a3) (d_config d) answer)
                    (api_world a3)).1 = cancelled).
  { unfold transport_outcome. subst d. cbn [d_config].
    rewrite config_token_created. destruct Hr as [c ->]. by rewrite settle_rejected. }
  rewrite Hcan in Ha, Hs. rewrite Ha. split; [|done].
  by rewrite (proj1 (on_settled_fields _ _)).
Qed.

(** X18: with an options object of the caller, a render with the arguments of
    the render before keeps the callback and runs no effect: the world, the
    state and the objects are as they were, only the render is counted. *)
Theorem same_arguments_no_effect (args : ApiArgs) (a : Api) (r : nat) :
  arg_options args = Some r →
  unmounted a = false →
  let a1 := useApi args a in
  useApi args a1 =
    {| api_world := api_world a1;
       caller_objects := caller_objects a1; default_objects := default_objects a1;
       loading := loading a1; api_data := api_data a1; api_err := api_err a1;
       renders := S (renders a1); memoizedCallback := memoizedCallback a1;
       effect_deps := effect_deps a1; unmounted := unmounted a1 |}.
Proof.
  intros Ho Hu. cbn zeta.
  destruct (useApi_memo args a Hu) as (cb & Hm & He & Hr & Hun & Hcase).
  rewrite Ho in Hcase.
  set (a1 := useApi args a) in *.
  unfold useApi at 1. rewrite Hun, Ho, Hm, He. cbv beta iota zeta.
  assert (Hdeps : cb_method cb = arg_method args ∧ cb_url cb = arg_url args ∧
                  cb_options cb = CallerObject r).
  { destruct Hcase as [->|(_ & ? & ? & ?)]; by repeat split. }
  rewrite (decide_True _ _ Hdeps). by rewrite decide_True.
Qed.

End UseApiRenders.

Section UseApiRefetch.

Lemma dispose_empty (msg : option string) (w : World) :
  requestMap (client w) = [] → (dispose msg w).2 = w.
Proof.
  intros Hm. rewrite dispose_world, Hm. cbn. rewrite app_nil_r. by destruct w.
Qed.

Lemma api_answer_world (p : Promise) (answer : TransportOutcome) (a : Api) :
  api_world (api_answer p answer a) = (deliver p answer (api_world a)).2.
Proof.
  unfold api_answer. destruct (settlement (api_world a) p); [done|].
  destruct (settlement _ p) as [s|]; [|done].
  by rewrite (proj1 (on_settled_fields _ _)).
Qed.

(** X19: with an options object of the caller, the second request made
    through the callback is not registered, since the first call left its
    token in the object.  Once the first request has settled, the registry
    is empty while the second is in flight: unmounting the component cancels
    nothing, and the second request settles as the network answers. *)
Theorem refetch_outlives_unmount (objects : gmap nat Props) (r : nat)
    (args : ApiArgs) (answer1 answer2 : TransportOutcome) :
  arg_options args = Some r →
  default false (arg_immediately args) = false →
  truthy (prop (default ∅ (objects !! r)) "cancelToken") = false →
  let a := api_run (api_initial objects)
             [ApiRender args; ApiInvoke; ApiAnswer 0 answer1; ApiInvoke] in
  requestMap (client (api_world a)) = [] ∧
  settlement (api_world a) 1%nat = None ∧
  (∃ d, dispatched (api_world a) !! 1%nat = Some d ∧ config_token (d_config d) = Some 0%nat) ∧
  api_world (api_unmount a) = api_world a ∧
  settlement (api_world (api_run a [ApiUnmount; ApiAnswer 1 answer2])) 1%nat =
    settlement (api_world (api_run a [ApiAnswer 1 answer2])) 1%nat.
Proof.
  intros Ho Hi Htok. cbn zeta.
  unfold api_run. cbn [foldl api_step].
  (* first render *)
  assert (H1 : useApi args (api_initial objects) =
    {| api_world := init; caller_objects := objects; default_objects := ∅;
       loading := false; api_data := JNull; api_err := None; renders := 1;
       memoizedCallback := Some (mkCallback 0 (arg_method args) (arg_url args)
                                   (CallerObject r));
       effect_deps := Some (false, 0%nat); unmounted := false |}).
  { unfold useApi. cbn. by rewrite Ho, Hi. }
  rewrite H1. cbn [memoizedCallback].
  set (cb := mkCallback 0 (arg_method args) (arg_url args) (CallerObject r)).
  set (a1 := {| api_world := init |}).
  (* first call *)
  set (o := default ∅ (objects !! r)) in *.
  set (o' := <["cancelToken" := JCancelToken 0]> o).
  set (config1 := spread (defaults (arg_method args) (arg_url args)) o').
  assert (H2 : invoke cb a1 =
    {| api_world :=
         {| client := {| currentId := 1; requestMap := [(1, mkSource 0)] |};
            allocated := 1; reasons := ∅;
            dispatched := [mkDispatched 1 config1 None];
            events := [MapSet 1 (mkSource 0); HttpRequest 0 config1] |};
       caller_objects := <[r := o']> objects; default_objects := ∅;
       loading := true; api_data := JNull; api_err := None; renders := 1;
       memoizedCallback := Some cb;
       effect_deps := Some (false, 0%nat); unmounted := false |}).
  { unfold invoke. cbn [set_loading set_result api_world cb_method cb_url cb_options cb a1].
    change (heap_get (CallerObject r) _) with o.
    rewrite (request_created _ _ _ _ Htok). reflexivity. }
  rewrite H2. clear H2.
  set (a2 := {| api_world := {| client := {| currentId := 1 |} |} |}).
  (* the first answer *)
  set (d1 := mkDispatched 1 config1 None).
  destruct (api_answer_in_flight 0 answer1 a2 d1 eq_refl eq_refl) as [Ha3 _].
  destruct (deliver_in_flight (api_world a2) 0 d1 answer1 eq_refl eq_refl) as [n Hw3].
  cbn zeta in Hw3, Ha3.
  set (s1 := (settle (d_requestID d1) _ (api_world a2)).1) in *.
  set (a3 := api_answer 0 answer1 a2) in *.
  assert (Hw : api_world a3 =
    {| client := {| currentId := 1; requestMap := [] |};
       allocated := 1; reasons := ∅;
       dispatched := [mkDispatched 1 config1 (Some s1)];
       events := events (after_delete 1 (api_world a2) (S n)) ++ [Settle 0 s1] |}).
  { rewrite Ha3, (proj1 (on_settled_fields _ _)). cbn [api_world set_world].
    rewrite Hw3. reflexivity. }
  assert (Hobj : heap_get (CallerObject r) a3 = o').
  { rewrite Ha3. destruct s1; cbn; unfold heap_get; cbn; by rewrite lookup_insert_eq. }
  assert (Hm3 : memoizedCallback a3 = Some cb).
  { exact (proj1 (api_answer_memo 0 answer1 a2)). }
  assert (He3 : effect_deps a3 = Some (false, 0%nat)).
  { exact (proj1 (proj2 (api_answer_memo 0 answer1 a2))). }
  rewrite Hm3.
  (* second call *)
  assert (Htok' : truthy (prop o' "cancelToken") = true).
  { unfold prop, o'. by rewrite lookup_insert_eq. }
  set (a4 := invoke cb a3).
  assert (Hw4 : api_world a4 =
    (request (arg_method args) (arg_url args) o' (api_world a3)).2).
  { subst a4. rewrite (proj1 (invoke_world cb a3)). cbn [cb_method cb_url cb_options cb].
    by rewrite Hobj. }
  rewrite (request_supplied _ _ _ _ Htok'), Hw in Hw4. cbn [snd] in Hw4.
  cbv zeta in Hw4. cbn [client requestMap currentId allocated reasons dispatched events]
    in Hw4.
  assert (He4 : effect_deps a4 = Some (false, 0%nat)).
  { etrans; [exact (proj1 (proj2 (invoke_memo cb a3)))|exact He3]. }
  assert (Hreg : requestMap (client (api_world a4)) = []) by (by rewrite Hw4).
  split; [exact Hreg|]. split; [by rewrite Hw4|]. split.
  { rewrite Hw4. eexists. split; [reflexivity|]. cbn [d_config].
    unfold config_token, prop, spread.
    rewrite (lookup_union_Some_l _ _ _ (JCancelToken 0)); [done|].
    rewrite lookup_insert_eq. unfold prop, o'. by rewrite lookup_insert_eq. }
  assert (Hun : api_world (api_unmount a4) = api_world a4).
  { unfold api_unmount. rewrite He4. cbn. unfold cleanup. by apply dispose_empty. }
  split; [exact Hun|].
  by rewrite !api_answer_world, Hun.
Qed.

End UseApiRefetch.

Section UseApiMount.

Lemma useApi_stable (args : ApiArgs) (a : Api) (r : nat) (cb : Callback) :
  arg_options args = Some r →
  unmounted a = false →
  memoizedCallback a = Some cb →
  cb_method cb = arg_method args ∧ cb_url cb = arg_url args ∧
    cb_options cb = CallerObject r →
  effect_deps a = Some (default false (arg_immediately args), cb_id cb) →
  useApi args a =
    {| api_world := api_world a;
       caller_objects := caller_objects a; default_objects := default_objects a;
       loading := loading a; api_data := api_data a; api_err := api_err a;
       renders := S (renders a); memoizedCallback := Some cb;
       effect_deps := effect_deps a; unmounted := false |}.
Proof.
  intros Ho Hu Hm Hdeps He. unfold useApi. rewrite Hu, Ho, Hm, He. cbv beta iota zeta.
  rewrite (decide_True _ _ Hdeps). by rewrite decide_True.
Qed.

Lemma rerenders_stable (args : ApiArgs) (r : nat) (cb : Callback) (n : nat) (a : Api) :
  arg_options args = Some r →
  unmounted a = false →
  memoizedCallback a = Some cb →
  cb_method cb = arg_method args ∧ cb_url cb = arg_url args ∧
    cb_options cb = CallerObject r →
  effect_deps a = Some (default false (arg_immediately args), cb_id cb) →
  api_world (api_run a (replicate n (ApiRender args))) = api_world a ∧
  loading (api_run a (replicate n (ApiRender args))) = loading a.
Proof.
  intros Ho. revert a. induction n as [|n IH]; intros a Hu Hm Hdeps He; [done|].
  cbn [replicate]. unfold api_run. cbn [foldl api_step].
  rewrite (useApi_stable args a r cb) by done.
  match goal with |- context [foldl api_step ?b _] =>
    destruct (IH b) as [H1 H2]; [done..|] end.
  unfold api_run in H1, H2. by rewrite H1, H2.
Qed.

(** X20: with an options object of the caller, [immediately] makes the first
    render, and no later one, call the callback: after any number of renders
    with the same arguments exactly one request has been made (none without
    [immediately]), with the caller's options, on a new client. *)
Theorem immediately_requests_once (objects : gmap nat Props) (r : nat)
    (args : ApiArgs) (n : nat) :
  arg_options args = Some r →
  let a := api_run (api_initial objects) (replicate (S n) (ApiRender args)) in
  api_world a =
    (if default false (arg_immediately args)
     then (request (arg_method args) (arg_url args) (default ∅ (objects !! r)) init).2
     else init) ∧
  loading a = default false (arg_immediately args) ∧
  length (dispatched (api_world a)) =
    (if default false (arg_immediately args) then 1 else 0)%nat.
Proof.
  intros Ho. cbn zeta. cbn [replicate]. unfold api_run. cbn [foldl api_step].
  set (cb := mkCallback 0 (arg_method args) (arg_url args) (CallerObject r)).
  set (a1 := useApi args (api_initial objects)).
  assert (H1 : memoizedCallback a1 = Some cb ∧
               effect_deps a1 = Some (default false (arg_immediately args), 0%nat) ∧
               unmounted a1 = false ∧
               api_world a1 =
                 (if default false (arg_immediately args)
                  then (request (arg_method args) (arg_url args)
                          (default ∅ (objects !! r)) init).2
                  else init) ∧
               loading a1 = default false (arg_immediately args)).
  { subst a1. unfold useApi. cbn. rewrite Ho. fold cb.
    destruct (default false (arg_immediately args)); [|done].
    destruct (invoke_memo cb
                {| api_world := init; caller_objects := objects; default_objects := ∅;
                   loading := false; api_data := JNull; api_err := None;
                   renders := 1; memoizedCallback := Some cb;
                   effect_deps := Some (true, 0%nat); unmounted := false |})
      as (-> & -> & _ & ->).
    repeat split; apply invoke_world. }
  destruct H1 as (Hm & He & Hu & Hw & Hl).
  destruct (rerenders_stable args r cb n a1 Ho Hu Hm) as [Hw' Hl']; [done..|].
  unfold api_run in Hw', Hl'. rewrite Hw', Hl', Hw, Hl. repeat split.
  destruct (default false (arg_immediately args)); [|done].
  destruct (truthy (prop (default ∅ (objects !! r)) "cancelToken")) eqn:H;
    [by rewrite (request_supplied _ _ _ _ H) | by rewrite (request_created _ _ _ _ H)].
Qed.

End UseApiMount.

(** ** More instances *)

(** A run with a call on an ordinary object, a call on a frozen object that
    holds a token (it throws, having registered nothing), a third call and
    the answer to the first; and the call on a frozen [{}], which leaves an
    entry without a request. *)
Lemma registry_entries_in_flight_witness :
  let l := [CallRequestOn "GET" "/a" (mkOptionsObject ∅ Extensible);
            CallRequestOn "GET" "/b" (mkOptionsObject own_token_options Frozen);
            Do (CallRequest "POST" "/c" ∅);
            Do (Answer 0%nat (Fulfilled (mkResponse (JString "raw") 200 "OK")))] in
  Forall no_orphan l ∧
  requestMap (client (run_on init l)) = [(3, mkSource 1)] ∧
  registry_in_flight (run_on init l) ∧
  ¬ registry_in_flight (run_on init [CallRequestOn "GET" "/a" frozen_options]).
Proof.
  cbn zeta.
  assert (H : Forall no_orphan
    [CallRequestOn "GET" "/a" (mkOptionsObject ∅ Extensible);
     CallRequestOn "GET" "/b" (mkOptionsObject own_token_options Frozen);
     Do (CallRequest "POST" "/c" ∅);
     Do (Answer 0%nat (Fulfilled (mkResponse (JString "raw") 200 "OK")))]).
  { apply Forall_cons; split; [by left|].
    apply Forall_cons; split; [by right|].
    apply Forall_cons; split; [done|].
    apply Forall_cons; split; [done|]. apply Forall_nil_2. }
  split; [exact H|]. split; [reflexivity|].
  destruct (registry_entries_in_flight _ H) as [Hinv Horphan].
  split; [exact Hinv|].
  exact (Horphan "GET" "/a" frozen_options eq_refl eq_refl).
Defined.

(** On the run of three requests the first has settled and its identifier
    is not in the registry. *)
Lemma completed_requests_unregistered_witness :
  let d := mkDispatched 1 (config_of "GET" "/a" 0)
             (Some (RejectedWith (ThrownHttpError (mkHttpError "请求被取消" JUndefined)))) in
  (Z.of_nat (request_calls three_calls) ≤ MAX_EXACT ∧
   dispatched (run init three_calls) !! 0%nat = Some d ∧
   d_settlement d = Some cancelled) ∧
  Map_get 1 (requestMap (client (run init three_calls))) = None.
Proof.
  cbn zeta.
  assert (H : Z.of_nat (request_calls three_calls) ≤ MAX_EXACT) by discriminate.
  split; [split; [exact H | split; reflexivity]|].
  exact (completed_requests_unregistered three_calls 0
           (mkDispatched 1 (config_of "GET" "/a" 0) (Some cancelled)) cancelled
           H eq_refl eq_refl).
Defined.

(** The second of two requests, in flight after the first was answered, is
    cancelled by [dispose]. *)
Lemma in_flight_cancelled_by_dispose_witness :
  let l1 := [CallRequest "GET" "/a" ∅] in
  let l2 := [Answer 0%nat (Fulfilled (mkResponse (JString "raw") 200 "OK"))] in
  let w := run init (l1 ++ CallRequest "POST" "/b" ∅ :: l2) in
  (truthy (prop (∅ : Props) "cancelToken") = false ∧
   Z.of_nat (request_calls (l1 ++ CallRequest "POST" "/b" ∅ :: l2)) ≤ MAX_EXACT ∧
   settlement w 1%nat = None) ∧
  settlement
    (run w [CallDispose (Some "bye");
            Answer 1%nat (Fulfilled (mkResponse (JObject body_ok) 200 "OK"))]) 1%nat
    = Some cancelled.
Proof.
  cbn zeta.
  assert (H : Z.of_nat (request_calls
                ([CallRequest "GET" "/a" ∅] ++ CallRequest "POST" "/b" ∅ ::
                 [Answer 0%nat (Fulfilled (mkResponse (JString "raw") 200 "OK"))]))
              ≤ MAX_EXACT) by discriminate.
  split; [split; [reflexivity | split; [exact H | reflexivity]]|].
  exact (in_flight_cancelled_by_dispose
           [CallRequest "GET" "/a" ∅]
           [Answer 0%nat (Fulfilled (mkResponse (JString "raw") 200 "OK"))]
           "POST" "/b" ∅ (Some "bye")
           (Fulfilled (mkResponse (JObject body_ok) 200 "OK"))
           eq_refl H eq_refl).
Defined.

(** A request made with a token of the caller resolves after [dispose] as
    the network answers. *)
Lemma dispose_spares_unregistered_witness :
  let d := mkDispatched 2 (spread (defaults "GET" "/b") own_token_options) None in
  let answer := Fulfilled (mkResponse (JString "raw") 200 "OK") in
  (dispatched one_registered_one_own !! 1%nat = Some d ∧
   (∀ t, config_token (d_config d) = Some t → ¬ registry_holds one_registered_one_own t)) ∧
  settlement (run one_registered_one_own [CallDispose None; Answer 1%nat answer]) 1%nat
    = settlement (run one_registered_one_own [Answer 1%nat answer]) 1%nat ∧
  settlement (run one_registered_one_own [Answer 1%nat answer]) 1%nat
    = Some (Resolved (JString "raw")).
Proof.
  cbn zeta.
  assert (H : ∀ t,
    config_token (spread (defaults "GET" "/b") own_token_options) = Some t →
    ¬ registry_holds one_registered_one_own t).
  { intros t [= <-] [k Hk].
    by apply elem_of_cons in Hk as [[=]|Hk%elem_of_nil]. }
  split; [split; [reflexivity | exact H]|].
  split; [|reflexivity].
  exact (dispose_spares_unregistered one_registered_one_own 1
           (mkDispatched 2 (spread (defaults "GET" "/b") own_token_options) None)
           None (Fulfilled (mkResponse (JString "raw") 200 "OK")) eq_refl H).
Defined.

(** An object whose [result] is the string ["-1"] resolves unchanged. *)
Lemma non_enveloped_body_resolves_witness :
  let body := JObject (<["result" := JString "-1"]> ∅) in
  (body ≠ JNull ∧
   (∀ (props : Props) (r : number),
      body = JObject props → props !! "result" ≠ Some (JNumber r))) ∧
  settle 1 (Fulfilled (mkResponse body 200 "OK")) init =
    (Resolved body, after_delete 1 init 1).
Proof.
  cbn zeta.
  assert (H : ∀ (props : Props) (r : number),
    JObject (<["result" := JString "-1"]> ∅) = JObject props →
    props !! "result" ≠ Some (JNumber r)).
  { intros props r [= <-]. discriminate. }
  assert (Hn : JObject (<["result" := JString "-1"]> ∅) ≠ JNull) by discriminate.
  split; [split; [exact Hn | exact H]|].
  exact (non_enveloped_body_resolves 1 init
           (JObject (<["result" := JString "-1"]> ∅)) 200 "OK" Hn H).
Defined.

(** Two requests of one callback in flight: whichever is answered last
    decides the state. *)
Lemma last_answer_wins_witness :
  let d1 := mkDispatched 1 (config_of "GET" "/a" 0) None in
  let d2 := mkDispatched 2 (config_of "GET" "/a" 0) None in
  let answer1 := Fulfilled (mkResponse (JObject body_ok) 200 "OK") in
  let answer2 := Fulfilled (mkResponse (JObject body_failed) 200 "OK") in
  let a1 := api_answer 0 answer1 two_calls in
  let a2 := api_answer 1 answer2 a1 in
  (0%nat ≠ 1%nat ∧
   dispatched (api_world two_calls) !! 0%nat = Some d1 ∧ d_settlement d1 = None ∧
   dispatched (api_world two_calls) !! 1%nat = Some d2 ∧ d_settlement d2 = None) ∧
  (loading a1 = false ∧ settlement (api_world a1) 1%nat = None) ∧
  (loading a2, api_data a2, api_err a2) =
    (loading (api_answer 1 answer2 two_calls), api_data (api_answer 1 answer2 two_calls),
     api_err (api_answer 1 answer2 two_calls)).
Proof.
  cbn zeta.
  assert (Hne : 0%nat ≠ 1%nat) by discriminate.
  split; [repeat split; (exact Hne || reflexivity)|].
  exact (last_answer_wins 0 1
           (mkDispatched 1 (config_of "GET" "/a" 0) None)
           (mkDispatched 2 (config_of "GET" "/a" 0) None)
           (Fulfilled (mkResponse (JObject body_ok) 200 "OK"))
           (Fulfilled (mkResponse (JObject body_failed) 200 "OK"))
           two_calls Hne eq_refl eq_refl eq_refl eq_refl).
Defined.

(** A render without options after a call: the request of the call is
    cancelled. *)
Lemma rerender_without_options_disposes_witness :
  let a := api_run (api_initial ∅) [ApiRender plain_args; ApiInvoke] in
  (arg_options plain_args = None ∧ is_Some (effect_deps a)) ∧
  memoizedCallback (useApi plain_args a) ≠ memoizedCallback a ∧
  api_world (useApi plain_args a) = (cleanup (api_world a)).2 ∧
  ∀ t, registry_holds (api_world a) t →
       is_Some (reasons (api_world (useApi plain_args a)) !! t).
Proof.
  cbn zeta.
  assert (H : is_Some (effect_deps (api_run (api_initial ∅)
                         [ApiRender plain_args; ApiInvoke]))) by (by eexists).
  split; [split; [reflexivity | exact H]|].
  exact (rerender_without_options_disposes ∅ [ApiRender plain_args; ApiInvoke]
           plain_args eq_refl H).
Defined.

(** Mount, call, re-render: the request is cancelled although the network
    answers with a body. *)
Lemma request_cancelled_by_rerender_witness :
  let answer := Fulfilled (mkResponse (JObject body_ok) 200 "OK") in
  let a := api_run (api_initial ∅)
             [ApiRender plain_args; ApiInvoke; ApiRender plain_args;
              ApiAnswer 0 answer] in
  (arg_options plain_args = None ∧
   default false (arg_immediately plain_args) = false ∧
   unmounted (api_run (api_initial ∅) []) = false) ∧
  settlement (api_world a) 0%nat = Some cancelled ∧
  loading a = false ∧ api_data a = JNull ∧
  api_err a = Some (ThrownHttpError (mkHttpError "请求被取消" JUndefined)).
Proof.
  cbn zeta. split; [repeat split|].
  exact (request_cancelled_by_rerender ∅ [] plain_args plain_args
           (Fulfilled (mkResponse (JObject body_ok) 200 "OK"))
           eq_refl eq_refl eq_refl eq_refl eq_refl).
Defined.

(** Rendering twice with the same object of the caller. *)
Lemma same_arguments_no_effect_witness :
  let a1 := useApi caller_args (api_initial ∅) in
  (arg_options caller_args = Some 0%nat ∧ unmounted (api_initial ∅) = false) ∧
  useApi caller_args a1 =
    {| api_world := api_world a1;
       caller_objects := caller_objects a1; default_objects := default_objects a1;
       loading := loading a1; api_data := api_data a1; api_err := api_err a1;
       renders := S (renders a1); memoizedCallback := memoizedCallback a1;
       effect_deps := effect_deps a1; unmounted := unmounted a1 |}.
Proof.
  cbn zeta. split; [split; reflexivity|].
  exact (same_arguments_no_effect caller_args (api_initial ∅) 0 eq_refl eq_refl).
Defined.

(** Call, answer, call again, unmount: the second request resolves. *)
Lemma refetch_outlives_unmount_witness :
  let answer1 := Fulfilled (mkResponse (JString "one") 200 "OK") in
  let answer2 := Fulfilled (mkResponse (JString "two") 200 "OK") in
  let a := api_run (api_initial ∅)
             [ApiRender caller_args; ApiInvoke; ApiAnswer 0 answer1; ApiInvoke] in
  (arg_options caller_args = Some 0%nat ∧
   default false (arg_immediately caller_args) = false ∧
   truthy (prop (default ∅ ((∅ : gmap nat Props) !! 0%nat)) "cancelToken") = false) ∧
  (requestMap (client (api_world a)) = [] ∧
   settlement (api_world a) 1%nat = None ∧
   (∃ d, dispatched (api_world a) !! 1%nat = Some d ∧
         config_token (d_config d) = Some 0%nat) ∧
   api_world (api_unmount a) = api_world a ∧
   settlement (api_world (api_run a [ApiUnmount; ApiAnswer 1 answer2])) 1%nat =
     settlement (api_world (api_run a [ApiAnswer 1 answer2])) 1%nat) ∧
  settlement (api_world (api_run a [ApiUnmount; ApiAnswer 1 answer2])) 1%nat
    = Some (Resolved (JString "two")).
Proof.
  cbn zeta. split; [repeat split|]. split; [|reflexivity].
  exact (refetch_outlives_unmount ∅ 0 caller_args
           (Fulfilled (mkResponse (JString "one") 200 "OK"))
           (Fulfilled (mkResponse (JString "two") 200 "OK"))
           eq_refl eq_refl eq_refl).
Defined.

(** Three renders with [immediately]: one request. *)
Lemma immediately_requests_once_witness :
  let a := api_run (api_initial ∅) (replicate 3 (ApiRender immediate_args)) in
  arg_options immediate_args = Some 0%nat ∧
  api_world a = (request "GET" "/a" ∅ init).2 ∧
  loading a = true ∧
  length (dispatched (api_world a)) = 1%nat.
Proof.
  cbn zeta. split; [reflexivity|].
  exact (immediately_requests_once ∅ 0 immediate_args 2 eq_refl).
Defined.
